(** * OCRdesktop: text reconstruction, colour naming and the macro engine

    A shallow embedding of [ocrdesktop_pkg/ocr.py], [color.py], [macro.py]
    and the macro-related handlers of [gui.py], with the properties of the
    specification stated over it.

    Conventions.
    - A Python [str] is a list of Unicode code points.
    - A Python [dict] whose iteration order matters is an association list;
      the file system is a finite map from paths to nodes.
    - Code that can raise returns a [result]; code that mutates the manager,
      the window or the file system passes the state explicitly.
    - Built-ins and external libraries whose behaviour the code only consumes
      ([int], [float], [time.sleep], the key table, the image library, the
      nearest-colour search) are section variables.
    - Calls on the input-injection interface and sleeps are recorded as
      events. What is printed under the debug flag and what the handlers do
      to the widgets is left out: neither is read back by the code. *)

From Stdlib Require Import ZArith NArith List String Ascii Bool Lia Floats.
From Stdlib Require Import Numbers.DecimalString.
From stdpp Require Import base option list gmap.

Open Scope Z_scope.

Set Warnings "-inexact-float".

(** ** Python strings and built-ins *)

Module Py.

Definition char := N.
Definition str := list char.

(** A literal of the source, written with Rocq's ASCII strings. *)
Definition lit (s : string) : str := map N_of_ascii (list_ascii_of_string s).

Arguments lit : simpl never.

Definition LF : char := 10%N.
Definition CR : char := 13%N.
Definition SPACE : char := 32%N.
Definition COMMA : char := 44%N.

(** [ch.isspace()], which is also the regular-expression class [\s] on [str]
    patterns: the code points CPython classifies as white space. *)
Definition isspace (c : char) : bool :=
  ((9 <=? c) && (c <=? 13) || (28 <=? c) && (c <=? 32)
   || (c =? 133) || (c =? 160) || (c =? 5760)
   || (8192 <=? c) && (c <=? 8202)
   || (c =? 8232) || (c =? 8233) || (c =? 8239) || (c =? 8287)
   || (c =? 12288))%N.

Arguments isspace : simpl never.

(** A character of ASCII, the characters that the [ascii] codec encodes
    and for which [str.lower] only maps [A]-[Z] to [a]-[z]. *)
Definition is_ascii (c : char) : bool := (c <? 128)%N.

(** [s.isspace()]: at least one character and all of them white space. *)
Definition str_isspace (s : str) : bool :=
  match s with
  | [] => false
  | _ => forallb isspace s
  end.

(** Truthiness of a string. *)
Definition truthy (s : str) : bool :=
  match s with [] => false | _ => true end.

Definition str_eqb (a b : str) : bool := bool_decide (a = b).

(** [s.strip()] *)
Fixpoint lstrip (s : str) : str :=
  match s with
  | c :: s' => if isspace c then lstrip s' else s
  | [] => []
  end.

Definition rstrip (s : str) : str := rev (lstrip (rev s)).

Definition strip (s : str) : str := rstrip (lstrip s).

(** [s.split(sep)] for a one-character separator: never an empty list. *)
Fixpoint split (sep : char) (s : str) : list str :=
  match s with
  | [] => [[]]
  | c :: s' =>
      if (c =? sep)%N then [] :: split sep s'
      else match split sep s' with
           | field :: fields => (c :: field) :: fields
           | [] => [[c]]
           end
  end.

(** [str(n)] and the [{n}] of an f-string, for an [int]. *)
Definition str_of_Z (n : Z) : str :=
  lit (NilZero.string_of_int (Z.to_int n)).
Arguments str_of_Z : simpl never.

(** [s[:-1]] *)
Definition drop_last (s : str) : str := removelast s.

(** Exceptions the embedded code can meet. *)
Inductive exn :=
| IndexError
| KeyError
| ValueError
| TypeError
| OSError
| UnicodeEncodeError.

Inductive result (A : Type) :=
| Ok (a : A)
| Raise (e : exn).
Arguments Ok {A} a.
Arguments Raise {A} e.

Definition bind {A B} (r : result A) (k : A -> result B) : result B :=
  match r with
  | Ok a => k a
  | Raise e => Raise e
  end.

(** [l[i]] on a list: [IndexError] out of range; a negative index counts
    from the end. *)
Definition index {A} (l : list A) (i : Z) : result A :=
  let j := if i <? 0 then i + Z.of_nat (length l) else i in
  if j <? 0 then Raise IndexError
  else match l !! Z.to_nat j with
       | Some a => Ok a
       | None => Raise IndexError
       end.

(** *** The regular expressions of [re] that the code uses

    Patterns are sequences of atoms: one character of a class, a greedy
    repetition of a class with a lower bound, and the anchors [^] and [$]
    (no MULTILINE flag). *)

Inductive atom :=
| One (cls : char -> bool)
| Many (least : nat) (cls : char -> bool)
| Bos
| Eos.

(** Greedy repetition: take characters of [cls] as long as possible, then
    give back one at a time until the rest of the pattern, [k], matches.
    The result counts the characters consumed from the current position. *)
Fixpoint greedy (k : bool -> str -> option nat) (least : nat)
    (cls : char -> bool) (taken : nat) (at_start : bool) (s : str)
    : option nat :=
  let stop := if (least <=? taken)%nat then k at_start s else None in
  match s with
  | c :: s' =>
      if cls c then
        match greedy k least cls (S taken) false s' with
        | Some n => Some (S n)
        | None => stop
        end
      else stop
  | [] => stop
  end.

(** [match_here p at_start s]: the length of the match of [p] that the
    backtracking matcher finds at the beginning of [s], if any. [at_start]
    tells whether [s] is the whole subject. *)
Fixpoint match_here (p : list atom) (at_start : bool) (s : str)
    : option nat :=
  match p with
  | [] => Some 0%nat
  | One cls :: p' =>
      match s with
      | c :: s' => if cls c then S <$> match_here p' false s' else None
      | [] => None
      end
  | Many least cls :: p' => greedy (match_here p') least cls 0 at_start s
  | Bos :: p' => if at_start then match_here p' at_start s else None
  | Eos :: p' =>
      (* end of the subject, or just before a newline that ends it *)
      match s with
      | [] => match_here p' at_start s
      | [c] => if (c =? LF)%N then match_here p' at_start s else None
      | _ => None
      end
  end.

(** [re.compile(p).sub(repl, s)]: leftmost matches, not overlapping, each
    replaced by [repl]. [skip] counts the characters of the current match
    still to be dropped. *)
Fixpoint sub_from (p : list atom) (repl : str) (skip : nat)
    (at_start : bool) (s : str) : str :=
  match skip with
  | S k =>
      match s with
      | _ :: s' => sub_from p repl k false s'
      | [] => []
      end
  | O =>
      match match_here p at_start s with
      | Some (S n) =>
          repl ++ match s with
                  | _ :: s' => sub_from p repl n false s'
                  | [] => []
                  end
      | Some O =>
          repl ++ match s with
                  | c :: s' => c :: sub_from p repl 0 false s'
                  | [] => []
                  end
      | None =>
          match s with
          | c :: s' => c :: sub_from p repl 0 false s'
          | [] => []
          end
      end
  end.

Definition re_sub (p : list atom) (repl : str) (s : str) : str :=
  sub_from p repl 0 true s.

(** Character classes. *)
Definition cls_s : char -> bool := isspace.                    (* \s *)
Definition cls_nl (c : char) : bool := (c =? LF)%N.            (* \n *)
Definition cls_hspace (c : char) : bool :=                     (* [^\S\r\n] *)
  isspace c && negb (c =? CR)%N && negb (c =? LF)%N.

(** *** Floats: Python's [float] is IEEE 754 binary64, as Rocq's
    primitive floats are. *)

(** [float(z)], exact for the pixel counts, box sizes and coordinates the
    code converts (below 2^53 in absolute value). *)
Definition float_of_Z (z : Z) : float :=
  if z <? 0 then PrimFloat.opp (PrimFloat.of_uint63 (Uint63.of_Z (- z)))
  else PrimFloat.of_uint63 (Uint63.of_Z z).

(** [round(x, 0)] followed by [int]: the nearest integer, ties to even.
    [None] for an infinity or a NaN, where [int] raises. *)
Definition round_half_even (m : positive) (e : Z) : Z :=
  if 0 <=? e then Z.pos m * 2 ^ e
  else
    let d := 2 ^ (- e) in
    let q := Z.pos m / d in
    let r := Z.pos m mod d in
    if 2 * r <? d then q
    else if d <? 2 * r then q + 1
    else if Z.even q then q else q + 1.

Definition int_round (x : float) : option Z :=
  match Prim2SF x with
  | S754_zero _ => Some 0
  | S754_finite sign m e =>
      let n := round_half_even m e in
      Some (if sign then - n else n)
  | _ => None
  end.

(** [int(x)]: truncation towards zero. *)
Definition int_trunc (x : float) : option Z :=
  match Prim2SF x with
  | S754_zero _ => Some 0
  | S754_finite sign m e =>
      let n := if 0 <=? e then Z.pos m * 2 ^ e else Z.pos m / 2 ^ (- e) in
      Some (if sign then - n else n)
  | _ => None
  end.

End Py.

Import Py.

(** ** [ocr.py]: the text reconstruction *)

Module Ocr.

(** One entry of Tesseract's table: the [i]-th element of each of the
    parallel lists of the [ocr_words] dictionary. *)
Record ocr_word := {
  text : str;
  page_num : Z;
  block_num : Z;
  par_num : Z;
  line_num : Z;
  left : Z;
  top : Z;
  width : Z;
  height : Z;
  conf : Z
}.

(** An entry of the word list handed to the window. *)
Record word_entry := {
  w_text : str;
  w_font_size : option Z;
  w_color : str;
  w_kind : str;
  w_x : option Z;
  w_y : option Z;
  w_conf : Z
}.

Definition font_size (h : Z) : option Z :=
  int_round (PrimFloat.mul (PrimFloat.div (float_of_Z h) (float_of_Z 3))
                           0x1.8f5c28f5c28f6p-1%float).

Definition centre (extent origin : Z) : option Z :=
  int_trunc (PrimFloat.add (PrimFloat.div (float_of_Z extent) (float_of_Z 2))
                           (float_of_Z origin)).

(** The loop state of [_process_ocr_words]. *)
Record acc := {
  a_text : str;
  a_words : list word_entry;
  last_page : Z;
  last_block : Z;
  last_par : Z;
  last_line : Z
}.

Section Reconstruct.

(** [color_callback], when one is given, and [include_word_list]. *)
Variable color_callback : option (ocr_word -> str).
Variable include_word_list : bool.

Definition step (a : acc) (w : ocr_word) : acc :=
  let word_text := text w in
  if negb (truthy word_text) || str_isspace word_text then a
  else
    let sep :=
      if negb (last_line a =? -1) then
        if negb (last_page a =? page_num w)
           || negb (last_block a =? block_num w)
           || negb (last_par a =? par_num w)
           || negb (last_line a =? line_num w)
        then [LF] else [SPACE]
      else [] in
    let entry :=
      {| w_text := word_text;
         w_font_size := font_size (height w);
         w_color := match color_callback with
                    | Some f => f w
                    | None => lit "unknown"
                    end;
         w_kind := lit "text";
         w_x := centre (width w) (left w);
         w_y := centre (height w) (top w);
         w_conf := conf w |} in
    {| a_text := a_text a ++ sep ++ word_text;
       a_words := if include_word_list then a_words a ++ [entry]
                  else a_words a;
       last_page := page_num w;
       last_block := block_num w;
       last_par := par_num w;
       last_line := line_num w |}.

Definition _process_ocr_words (ocr_words : list ocr_word)
    : str * list word_entry :=
  match ocr_words with
  | [] => ([], [])
  | _ =>
      let a := fold_left step ocr_words
                 {| a_text := []; a_words := [];
                    last_page := -1; last_block := -1;
                    last_par := -1; last_line := -1 |} in
      (a_text a ++ [LF], a_words a)
  end.

End Reconstruct.

(** The six substitutions of [_clean_text], in the order of the source. *)
Definition double_spaces := [Many 2 cls_hspace].            (* [^\S\r\n]{2,} *)
Definition empty_lines := [One cls_nl; Many 0 cls_s; One cls_nl]. (* \n\s*\n *)
Definition ending_spaces := [Many 0 cls_s; One cls_nl].     (* \s*\n *)
Definition first_space := [Bos; One cls_s].                 (* ^\s *)
Definition ending_newline := [Eos; One cls_nl].             (* $\n *)
Definition after_newline := [One cls_nl; One cls_s].        (* \n\s *)

Definition substitutions (text : str) : str :=
  let text := re_sub double_spaces (lit " ") text in
  let text := re_sub empty_lines [LF] text in
  let text := re_sub ending_spaces [LF] text in
  let text := re_sub first_space [LF] text in
  let text := re_sub ending_newline [] text in
  re_sub after_newline [LF] text.

Definition _clean_text (text : str) : str :=
  let text := substitutions text in
  if truthy text then drop_last text else text.

(** [process_images] on the tables Tesseract returned for the images. *)
Definition process_images (color_callback : option (ocr_word -> str))
    (include_word_list : bool) (tables : list (list ocr_word))
    : str * list word_entry :=
  let per_image := map (_process_ocr_words color_callback include_word_list)
                       tables in
  (_clean_text (concat (map fst per_image)), concat (map snd per_image)).

(** The text of one image: per-glyph processing, then the cleanup pass. *)
Definition reconstruct (ocr_words : list ocr_word) : str :=
  _clean_text (fst (_process_ocr_words None false ocr_words)).

(** A glyph with the given text and position in the document; the box and
    the confidence play no part in the text. *)
Definition glyph (t : string) (page block par line : Z) : ocr_word :=
  {| text := lit t; page_num := page; block_num := block; par_num := par;
     line_num := line; left := 0; top := 0; width := 0; height := 0;
     conf := 0 |}.

End Ocr.


(** ** [color.py]: naming the colours of a box *)

Module Color.

(** A pixel as [getdata] yields it for an RGB image. *)
Definition pixel : Type := Z * Z * Z.

(** [defaultdict(int)], in insertion order: [d[key] += n]. *)
Fixpoint bump {K} `{EqDecision K} (key : K) (n : Z) (d : list (K * Z))
    : list (K * Z) :=
  match d with
  | [] => [(key, n)]
  | (k, v) :: d' =>
      if decide (k = key) then (k, v + n) :: d' else (k, v) :: bump key n d'
  end.

(** [d[key]] on a [defaultdict(int)] read after the loop that filled it. *)
Fixpoint get {K} `{EqDecision K} (key : K) (d : list (K * Z)) : Z :=
  match d with
  | [] => 0
  | (k, v) :: d' => if decide (k = key) then v else get key d'
  end.

(** [sorted(items, key=lambda item: item[1], reverse=True)]: stable, so
    entries with equal counts keep their order. *)
Fixpoint insert_desc {K} (x : K * Z) (l : list (K * Z)) : list (K * Z) :=
  match l with
  | [] => [x]
  | y :: l' => if snd x <? snd y then y :: insert_desc x l' else x :: l
  end.

Definition sorted_desc {K} (l : list (K * Z)) : list (K * Z) :=
  foldr insert_desc [] l.

(** [count / area * 100], rounded with [round(_, 0)] and converted by
    [int]. *)
Definition percent_of (count area : Z) : option Z :=
  int_round (PrimFloat.mul (PrimFloat.div (float_of_Z count) (float_of_Z area))
                           (float_of_Z 100)).

Record detector := {
  _max_colors : Z;
  _enabled : bool
}.

(** The [box] argument: Tesseract's dictionary, a list per key. *)
Definition box_dict := list (string * list Z).

Fixpoint item (d : box_dict) (key : string) : result (list Z) :=
  match d with
  | [] => Raise KeyError
  | (k, v) :: d' => if String.eqb k key then Ok v else item d' key
  end.

Definition unknown : str := lit "unknown".

Section Detector.

(** The optional dependencies found at import time. *)
Variable scipy_available : bool.
Variable webcolors_available : bool.

(** The image library: [img.crop(box).getdata()]. *)
Variable image : Type.
Variable crop_getdata : image -> Z * Z * Z * Z -> result (list pixel).

(** The reference palette: the names in table order and the nearest
    neighbour query of the k-d tree built from it. *)
Variable color_names : list str.
Variable kdt_query : pixel -> result Z.

(** [_rgb_to_name]: the memo table [_color_cache] is read first and filled
    on a miss. *)
Definition _rgb_to_name (c : gmap pixel str) (rgb : pixel) : result str * gmap pixel str :=
  match c !! rgb with
  | Some name => (Ok name, c)
  | None =>
      match bind (kdt_query rgb) (index color_names) with
      | Ok name => (Ok name, <[rgb := name]> c)
      | Raise e => (Raise e, c)
      end
  end.

(** The first loop: [by_color[pixel] += 1]. *)
Definition count_colors (pixels : list pixel) : list (pixel * Z) :=
  foldl (fun d px => bump px 1 d) [] pixels.

(** The second loop: [by_color_name[self._rgb_to_name(color)] += count]. *)
Fixpoint count_names (c : gmap pixel str) (by_color : list (pixel * Z))
    (by_color_name : list (str * Z)) : result (list (str * Z)) * gmap pixel str :=
  match by_color with
  | [] => (Ok by_color_name, c)
  | (color, count) :: rest =>
      match _rgb_to_name c color with
      | (Ok name, c') => count_names c' rest (bump name count by_color_name)
      | (Raise e, c') => (Raise e, c')
      end
  end.

(** The third loop, over the first [min(max_colors, len(color_list))]
    names of [color_list]. *)
Fixpoint describe (by_color_name : list (str * Z)) (area : Z)
    (color_list : list str) (color_str : str) : result str :=
  match color_list with
  | [] => Ok color_str
  | color_name :: rest =>
      let count := get color_name by_color_name in
      if negb (area =? 0) then
        match percent_of count area with
        | Some percent =>
            if 0 <? percent then
              describe by_color_name area rest
                (color_str ++ color_name ++ lit ": " ++ str_of_Z percent
                 ++ lit " %, ")
            else describe by_color_name area rest color_str
        | None => Raise ValueError
        end
      else
        describe by_color_name area rest
          (color_str ++ color_name ++ lit ": " ++ str_of_Z count
           ++ lit " pixel, ")
  end.

(** [color_str[:-2]] *)
Definition drop_last2 (s : str) : str := take (length s - 2) s.

(** [box[key][index]] *)
Definition field (box : box_dict) (key : string) (i : Z) : result Z :=
  bind (item box key) (fun l => index l i).

(** The body of the [try]. *)
Definition try_body (d : detector) (box : box_dict) (i : Z) (img : image)
    (c : gmap pixel str) : result str * gmap pixel str :=
  match
    bind (field box "width" i) (fun width =>
    bind (field box "height" i) (fun height =>
    bind (field box "left" i) (fun left =>
    bind (field box "top" i) (fun top =>
    bind (crop_getdata img (left, top, left + width, top + height))
      (fun pixels => Ok (width, height, pixels))))))
  with
  | Raise e => (Raise e, c)
  | Ok (width, height, pixels) =>
      match count_names c (count_colors pixels) [] with
      | (Raise e, c') => (Raise e, c')
      | (Ok by_color_name, c') =>
          let color_list := map fst (sorted_desc by_color_name) in
          let n := Z.to_nat (Z.min (_max_colors d)
                                   (Z.of_nat (length color_list))) in
          (bind (describe by_color_name (width * height)
                          (take n color_list) [])
             (fun color_str =>
                Ok (if truthy color_str then drop_last2 color_str
                    else unknown)),
           c')
      end
  end.

(** [try: ... except Exception: return 'unknown'] *)
Definition except_unknown (r : result str * gmap pixel str) : result str * gmap pixel str :=
  match r with
  | (Raise _, c) => (Ok unknown, c)
  | ok => ok
  end.

Definition get_color_string (d : detector) (box : option box_dict) (i : Z)
    (img : option image) (c : gmap pixel str) : result str * gmap pixel str :=
  if negb (_enabled d) then (Ok unknown, c)
  else if negb scipy_available then (Ok unknown, c)
  else if negb webcolors_available then (Ok unknown, c)
  else if _max_colors d <? 1 then (Ok unknown, c)
  else
    match img, box with
    | Some img, Some (entry :: entries) =>
        except_unknown (try_body d (entry :: entries) i img c)
    | _, _ => (Ok unknown, c)
    end.

(** What the specification calls the reported percentages: of the first
    [max_colors] names by count, the percentages that are not omitted. *)
Definition report_entry (area : Z) (e : str * Z) : option (str * Z) :=
  match percent_of (snd e) area with
  | Some p => if 0 <? p then Some (fst e, p) else None
  | None => None
  end.

Definition reported (d : detector) (by_color_name : list (str * Z))
    (area : Z) : list (str * Z) :=
  omap (report_entry area)
       (take (Z.to_nat (_max_colors d)) (sorted_desc by_color_name)).

End Detector.

End Color.


(** ** [macro.py]: the event log and its playback *)

Module Macro.


(** A path of the file system names nothing, a regular file with its text,
    or a directory. *)
Inductive node :=
| File (content : str)
| Dir.

(** [pyatspi.KEY_PRESS], [KEY_RELEASE] and [KEY_PRESSRELEASE]. *)
Inductive synth := KEY_PRESS | KEY_RELEASE | KEY_PRESSRELEASE.

(** What reaches the outside: the calls on the input-injection interface
    and the time slept. *)
Inductive event :=
| Sleep (seconds : float)
| GenerateKeyboardEvent (key_value : Z) (key_string : str) (kind : synth)
| GenerateMouseEvent (x y : Z) (name : str)
| RegisterKeystrokeListener
| DeregisterKeystrokeListener.

(** The manager's flag, the file system and the events so far. *)
Record world := {
  fs : gmap str node;
  _macro_finished : bool;
  events : list event
}.

Definition set_fs (f : gmap str node) (w : world) : world :=
  {| fs := f; _macro_finished := _macro_finished w; events := events w |}.

Definition set_finished (b : bool) (w : world) : world :=
  {| fs := fs w; _macro_finished := b; events := events w |}.

Definition emit (e : event) (w : world) : world :=
  {| fs := fs w; _macro_finished := _macro_finished w;
     events := events w ++ [e] |}.

(** A method: it returns or raises, and leaves a world behind either way. *)
Definition M (A : Type) : Type := world -> result A * world.

Definition ret {A} (a : A) : M A := fun w => (Ok a, w).

Definition raise {A} (e : exn) : M A := fun w => (Raise e, w).

Definition lift {A} (r : result A) : M A := fun w => (r, w).

Definition seq {A B} (m : M A) (k : A -> M B) : M B :=
  fun w =>
    match m w with
    | (Ok a, w') => k a w'
    | (Raise e, w') => (Raise e, w')
    end.

Definition act (f : world -> world) : M unit := fun w => (Ok tt, f w).

Notation "'let*' x ':=' m 'in' k" := (seq m (fun x => k))
  (at level 10, x name, m at level 100, k at level 200).
Notation "m ';;' k" := (seq m (fun _ => k))
  (at level 100, k at level 200, right associativity).

(** Text-mode reading: [\r\n] and [\r] become [\n]. *)
Fixpoint universal_newlines (after_cr : bool) (s : str) : str :=
  match s with
  | [] => []
  | c :: s' =>
      if (c =? CR)%N then LF :: universal_newlines true s'
      else if (c =? LF)%N && after_cr then universal_newlines false s'
      else c :: universal_newlines false s'
  end.

(** [for line in f]: the lines, each with its newline, the last one perhaps
    without. *)
Fixpoint lines_from (cur : str) (s : str) : list str :=
  match s with
  | [] => match cur with [] => [] | _ => [cur] end
  | c :: s' =>
      if (c =? LF)%N then (cur ++ [LF]) :: lines_from [] s'
      else lines_from (cur ++ [c]) s'
  end.

Definition readlines (content : str) : list str :=
  lines_from [] (universal_newlines false content).

(** [open(path, "a")] followed by the writes of [data], a text that the
    encoding of the file has. *)
Definition append_file (path : str) (data : str) : M unit :=
  fun w =>
    match fs w !! path with
    | None => (Ok tt, set_fs (<[path := File data]> (fs w)) w)
    | Some (File content) =>
        (Ok tt, set_fs (<[path := File (content ++ data)]> (fs w)) w)
    | Some Dir => (Raise OSError, w)
    end.

(** [open(path, "a")] followed by one [f.write(data)], for a text that may
    hold any character. The log is opened without an encoding, and
    [OCRDesktopApp.__init__] has set the C locale: the text layer encodes
    ASCII. Opening creates the file; a character outside ASCII then makes
    [write] raise [UnicodeEncodeError], and nothing of the text is
    written. (An interpreter in UTF-8 mode encodes more; a text of ASCII
    is written in both.) *)
Definition write_text (path : str) (data : str) : M unit :=
  fun w =>
    if forallb is_ascii data then append_file path data w
    else
      match fs w !! path with
      | None =>
          (Raise UnicodeEncodeError, set_fs (<[path := File []]> (fs w)) w)
      | Some (File _) => (Raise UnicodeEncodeError, w)
      | Some Dir => (Raise OSError, w)
      end.

(** [os.path.basename] and the join of a directory with a name. *)
Definition SLASH : char := 47%N.

Definition basename (path : str) : str :=
  default [] (last (split SLASH path)).

Definition path_join (dir name : str) : str :=
  match last dir with
  | Some c => if (c =? SLASH)%N then dir ++ name else dir ++ [SLASH] ++ name
  | None => name
  end.

(** [shutil.copy(src, dst)]: into [dst] when it is a directory. The paths
    are the keys of the file system, and [samefile] is [os.path.samefile]:
    whether two paths name one file, as another spelling of a path or a
    link does. [shutil] refuses to copy a file onto itself with
    [SameFileError], an [OSError]. *)
Definition shutil_copy (samefile : str -> str -> bool) (src dst : str)
    : M unit :=
  fun w =>
    match fs w !! src with
    | Some (File content) =>
        let target := match fs w !! dst with
                      | Some Dir => path_join dst (basename src)
                      | _ => dst
                      end in
        if samefile src target then (Raise OSError, w)
        else
          match fs w !! target with
          | Some Dir => (Raise OSError, w)
          | _ => (Ok tt, set_fs (<[target := File content]> (fs w)) w)
          end
    | _ => (Raise OSError, w)
    end.

(** [os.remove(path)] *)
Definition os_remove (path : str) : M unit :=
  fun w =>
    match fs w !! path with
    | Some (File _) => (Ok tt, set_fs (delete path (fs w)) w)
    | _ => (Raise OSError, w)
    end.

(** [os.path.exists(path) and os.path.isfile(path)] *)
Definition is_regular_file (path : str) (w : world) : bool :=
  match fs w !! path with
  | Some (File _) => true
  | _ => false
  end.

Section Manager.

(** [~/.activeOCRMacro.ocrm] with the home directory expanded. *)
Variable _macro_file : str.

(** [os.path.samefile]: whether two paths name one file. *)
Variable samefile : str -> str -> bool.

(** Whether [pyatspi] was imported. *)
Variable pyatspi_available : bool.

(** The built-ins [int] and [float] on a string ([None]: [ValueError]),
    the arguments [time.sleep] accepts, and the key table of
    [constants.py] read with [KEY_CODE.get(name, 0)]. *)
Variable py_int : str -> option Z.
Variable py_float : str -> option float.
Variable sleep_valid : float -> bool.
Variable KEY_CODE : str -> option Z.

Definition to_int (s : str) : M Z :=
  lift (match py_int s with Some n => Ok n | None => Raise ValueError end).

Definition to_float (s : str) : M float :=
  lift (match py_float s with Some x => Ok x | None => Raise ValueError end).

Definition time_sleep (x : float) : M unit :=
  if sleep_valid x then act (emit (Sleep x)) else raise ValueError.

Definition macro_exists (w : world) : bool := is_regular_file _macro_file w.

Definition _load_macro_exists (path : str) (w : world) : bool :=
  is_regular_file path w.

Definition load_macro_file (macro_path : str) : M unit :=
  fun w =>
    if _load_macro_exists macro_path w then
      if negb (str_eqb macro_path _macro_file) then
        shutil_copy samefile macro_path _macro_file w
      else (Ok tt, w)
    else (Ok tt, w).

Definition delete_macro : M unit :=
  fun w => if macro_exists w then os_remove _macro_file w else (Ok tt, w).

Definition _do_keyboard_step (key_value : Z) (key_string : str)
    (event_type : Z) : M unit :=
  if negb pyatspi_available then ret tt
  else
    let generate key_value :=
      if event_type =? 0 then
        act (emit (GenerateKeyboardEvent key_value key_string KEY_PRESS))
      else if event_type =? 1 then
        act (emit (GenerateKeyboardEvent key_value key_string KEY_RELEASE))
      else if event_type =? 2 then
        act (emit (GenerateKeyboardEvent key_value key_string
                     KEY_PRESSRELEASE))
      else ret tt in
    if key_value =? 0 then
      if truthy key_string then
        generate (default 0 (KEY_CODE key_string))
      else ret tt
    else generate key_value.

Definition _do_mouse_step (x y : Z) (mouse_event : str) : M unit :=
  if negb pyatspi_available then ret tt
  else
    act (emit (GenerateMouseEvent x y (lit "abs")));;
    if negb (str_eqb mouse_event (lit "None")) then
      act (emit (GenerateMouseEvent x y mouse_event))
    else ret tt.

(** The body of the loop of [run_macro], for one line of the file. *)
Definition run_line (line : str) : M unit :=
  let parts := split COMMA (strip line) in
  let* tag := lift (index parts 0) in
  if str_eqb tag (lit "c") then
    let* what := lift (index parts 1) in
    if str_eqb what (lit "delay") then
      let* field := lift (index parts 2) in
      let* seconds := to_float field in
      time_sleep seconds
    else ret tt
  else if str_eqb tag (lit "k") then
    let* field1 := lift (index parts 1) in
    let* key_value := to_int field1 in
    let* key_string := lift (index parts 2) in
    let* field3 := lift (index parts 3) in
    let* event_type := to_int field3 in
    _do_keyboard_step key_value key_string event_type
  else if str_eqb tag (lit "m") then
    let* field1 := lift (index parts 1) in
    let* x := to_int field1 in
    let* field2 := lift (index parts 2) in
    let* y := to_int field2 in
    let* mouse_event := lift (index parts 3) in
    _do_mouse_step x y mouse_event
  else ret tt.

Fixpoint run_lines (lines : list str) : M unit :=
  match lines with
  | [] => ret tt
  | line :: rest => run_line line;; run_lines rest
  end.

Definition run_macro : M unit :=
  fun w =>
    match fs w !! _macro_file with
    | Some (File content) =>
        (act (set_finished false);;
         run_lines (readlines content);;
         act (set_finished true)) w
    | _ => (Ok tt, w)
    end.

Definition get_macro_finished (w : world) : bool := _macro_finished w.

(** [wait_for_finish]. While the caller sleeps the other thread runs: the
    schedule lists what it does to the world during each sleep, in order.
    [None]: the schedule ended with the loop still polling. *)
Fixpoint wait_loop (schedule : list (world -> world)) (w : world)
    : option (list (world -> world) * world) :=
  if negb (get_macro_finished w) && macro_exists w then
    match schedule with
    | [] => None
    | other :: schedule' => wait_loop schedule' (other (emit (Sleep 0.3) w))
    end
  else Some (schedule, w).

Definition wait_for_finish (schedule : list (world -> world)) (w : world)
    : option world :=
  match wait_loop schedule w with
  | None => None
  | Some (schedule', w') =>
      let other := match schedule' with
                   | [] => fun w => w
                   | other :: _ => other
                   end in
      Some (set_finished false (other (emit (Sleep 0.2) w')))
  end.

(** [pyatspi.KEY_PRESS], [KEY_RELEASE], [KEY_PRESSRELEASE] as the integers
    AT-SPI gives them. *)
Definition KEY_PRESS_id : Z := 0.
Definition KEY_RELEASE_id : Z := 1.
Definition KEY_PRESSRELEASE_id : Z := 2.

Definition write_keyboard_to_macro (key_value : Z) (key_string : str)
    (event_type : Z) : M unit :=
  if negb pyatspi_available then ret tt
  else
    let event_type_id :=
      if event_type =? KEY_PRESS_id then 0
      else if event_type =? KEY_RELEASE_id then 1
      else if event_type =? KEY_PRESSRELEASE_id then 2
      else event_type in
    write_text _macro_file
      (lit "k," ++ str_of_Z key_value ++ lit "," ++ key_string ++ lit ","
       ++ str_of_Z event_type_id ++ [LF]).

(** The two writes of [write_mouse_to_macro]. The coordinates are written
    as numerals, and the window passes the names of the pointer actions,
    which are ASCII. *)
Definition write_mouse_to_macro (x y : Z) (mouse_event : str) : M unit :=
  append_file _macro_file
    ((lit "c,delay,0.9" ++ [LF])
     ++ (lit "m," ++ str_of_Z x ++ lit "," ++ str_of_Z y ++ lit ","
         ++ mouse_event ++ [LF])).

Definition thread_run_macro : M unit := run_macro.

End Manager.

End Macro.

(** ** [gui.py]: the handlers that record or inject *)

Module Gui.

Import Macro.


(** [event.type] of a keystroke delivered to the listener. *)
Inductive event_type :=
| KEY_PRESSED_EVENT
| KEY_RELEASED_EVENT
| OTHER_EVENT.

Record key_event := {
  type : event_type;
  event_string : str
}.

(** The fields of [MainWindow] that the handlers read or write. [_macro]
    tells whether a manager was given to the window or [None]. *)
Record window := {
  _save_to_macro : bool;
  _macro : bool;
  _keyboard_overlay_active : bool;
  _gtk_main_running : bool
}.

Definition set_overlay (b : bool) (g : window) : window :=
  {| _save_to_macro := _save_to_macro g; _macro := _macro g;
     _keyboard_overlay_active := b;
     _gtk_main_running := _gtk_main_running g |}.

Definition set_armed (b : bool) (g : window) : window :=
  {| _save_to_macro := b; _macro := _macro g;
     _keyboard_overlay_active := _keyboard_overlay_active g;
     _gtk_main_running := _gtk_main_running g |}.

(** [_cancel]: leave the main loop if it runs. *)
Definition _cancel (g : window) : window :=
  if _gtk_main_running g then
    {| _save_to_macro := _save_to_macro g; _macro := _macro g;
       _keyboard_overlay_active := _keyboard_overlay_active g;
       _gtk_main_running := false |}
  else g.

(** The pointer actions of the menu and the names they are injected and
    recorded under. *)
Inductive pointer_action :=
| LeftClick
| DoubleClick
| RightClick
| MiddleClick.

Definition action_name (a : pointer_action) : str :=
  match a with
  | LeftClick => lit "b1c"
  | DoubleClick => lit "b1d"
  | RightClick => lit "b3c"
  | MiddleClick => lit "b2c"
  end.

Section Window.

Variable _macro_file : str.
Variable pyatspi_available : bool.
Variable sleep_valid : float -> bool.

(** [_set_save_to_macro]: the Preclick check box. *)
Definition _set_save_to_macro (active : bool) (g : window) : window :=
  set_armed active g.

Definition _thread_do_click (x y : Z) (mouse_event : str) (delay : float)
    (g : window) : M window :=
  if negb pyatspi_available then ret (_cancel g)
  else
    (if _save_to_macro g && _macro g then
       write_mouse_to_macro _macro_file x y mouse_event
     else
       time_sleep sleep_valid delay;;
       act (emit (GenerateMouseEvent x y mouse_event)));;
    ret (_cancel g).

Definition _thread_route_to (x y : Z) (delay : float) (g : window)
    : M window :=
  if negb pyatspi_available then ret (_cancel g)
  else
    (if _save_to_macro g && _macro g then
       write_mouse_to_macro _macro_file x y (lit "None")
     else
       time_sleep sleep_valid delay;;
       act (emit (GenerateMouseEvent x y (lit "abs"))));;
    ret (_cancel g).

(** The four click handlers start [_thread_do_click] with the default
    delay. *)
Definition click (a : pointer_action) (x y : Z) (g : window) : M window :=
  _thread_do_click x y (action_name a) 0.8%float g.

Definition _send_key_mode (g : window) : M window :=
  if negb pyatspi_available then ret g
  else
    act (emit RegisterKeystrokeListener);;
    ret (set_overlay true g).

(** [_on_send_key]: the listener of send-key mode. It always answers
    [True], so the keystroke goes no further. *)
Definition _on_send_key (e : key_event) (g : window) : M (bool * window) :=
  if negb pyatspi_available then ret (true, g)
  else
    let record event_type_id :=
      (if _macro g then
         write_keyboard_to_macro _macro_file pyatspi_available 0
           (event_string e) event_type_id
       else ret tt);;
      ret (true, g) in
    match type e with
    | KEY_PRESSED_EVENT =>
        if str_eqb (event_string e) (lit "F4") then
          act (emit DeregisterKeystrokeListener);;
          ret (true, set_overlay false g)
        else record 0
    | KEY_RELEASED_EVENT => record 1
    | OTHER_EVENT => record 2
    end.

End Window.

End Gui.

(** ** Properties of texts and logs, and the inputs of the examples *)

Module Props.

(** The last character is a newline. *)
Definition trailing_newline (s : str) : bool :=
  match last s with
  | Some c => (c =? LF)%N
  | None => false
  end.

(** Two white-space characters other than newlines stand side by side. *)
Fixpoint double_space (s : str) : bool :=
  match s with
  | a :: (b :: _) as s' =>
      (isspace a && negb (a =? LF)%N && isspace b && negb (b =? LF)%N)
      || double_space s'
  | _ => false
  end.

(** Some line of the text, split at the newlines, is empty or blank. *)
Definition blank_line (s : str) : bool :=
  existsb (forallb isspace) (split LF s).

(** A word as the OCR engine returns it: not empty, no white space. *)
Definition solid (s : str) : bool :=
  truthy s && forallb (fun c => negb (isspace c)) s.

(** No two white-space characters side by side. *)
Fixpoint sparse (s : str) : bool :=
  match s with
  | a :: (b :: _) as s' => negb (isspace a && isspace b) && sparse s'
  | _ => true
  end.

Definition starts_solid (s : str) : bool :=
  match s with
  | c :: _ => negb (isspace c)
  | [] => false
  end.

Definition ends_solid (s : str) : bool :=
  match last s with
  | Some c => negb (isspace c)
  | None => false
  end.

(** Words separated by single spaces or single newlines. *)
Definition tidy (s : str) : bool :=
  sparse s && starts_solid s && ends_solid s.

(** A glyph as the OCR engine returns it: a word, on a line with a
    number of its own (not the [-1] that the loop starts from). *)
Definition engine_word (w : Ocr.ocr_word) : bool :=
  solid (Ocr.text w) && negb (Ocr.line_num w =? -1).

(** Neither a line feed nor a carriage return. *)
Definition plain (c : char) : bool :=
  negb (c =? LF)%N && negb (c =? CR)%N.

(** The text of the event log, empty while the file does not exist. *)
Definition log_text (path : str) (w : Macro.world) : str :=
  match Macro.fs w !! path with
  | Some (Macro.File content) => content
  | _ => []
  end.

(** The world when the waiter wakes from its [n]-th sleep. *)
Fixpoint after_sleeps (n : nat) (schedule : list (Macro.world -> Macro.world))
    (w : Macro.world) : Macro.world :=
  match n, schedule with
  | S n', other :: schedule' =>
      after_sleeps n' schedule' (other (Macro.emit (Macro.Sleep 0.3) w))
  | _, _ => w
  end.

(** The first field of a line of the log, as [run_macro] reads it. *)
Definition tag (line : str) : str :=
  default [] (head (split COMMA (strip line))).

Definition second (line : str) : option str :=
  split COMMA (strip line) !! 1%nat.

(** Lines that playback passes over: the first field is none of [c], [k],
    [m], or it is [c] and a second field follows that is not [delay]. *)
Definition unrecognized (line : str) : bool :=
  (negb (str_eqb (tag line) (lit "c"))
   && negb (str_eqb (tag line) (lit "k"))
   && negb (str_eqb (tag line) (lit "m")))
  || (str_eqb (tag line) (lit "c")
      && match second line with
         | Some what => negb (str_eqb what (lit "delay"))
         | None => false
         end).

(** A key line with key code 0 and an empty symbol, the phase being a
    number: the malformed key line of the log format. *)
Definition empty_key (py_int : str -> option Z) (line : str) : bool :=
  str_eqb (tag line) (lit "k")
  && match split COMMA (strip line) !! 1%nat,
           split COMMA (strip line) !! 2%nat,
           split COMMA (strip line) !! 3%nat with
     | Some code, Some symbol, Some ph =>
         bool_decide (py_int code = Some 0) && negb (truthy symbol)
         && bool_decide (is_Some (py_int ph))
     | _, _, _ => false
     end.

Definition skipped (py_int : str -> option Z) (line : str) : bool :=
  unrecognized line || empty_key py_int line.

(** The line recorded for a keystroke of send-key mode. *)
Definition phase (e : Gui.key_event) : Z :=
  match Gui.type e with
  | Gui.KEY_PRESSED_EVENT => 0
  | Gui.KEY_RELEASED_EVENT => 1
  | Gui.OTHER_EVENT => 2
  end.

Definition key_line (e : Gui.key_event) : str :=
  lit "k,0," ++ Gui.event_string e ++ lit "," ++ str_of_Z (phase e) ++ [LF].

Definition is_f4_press (e : Gui.key_event) : bool :=
  match Gui.type e with
  | Gui.KEY_PRESSED_EVENT => str_eqb (Gui.event_string e) (lit "F4")
  | _ => false
  end.

(** A keystroke was injected. *)
Definition injects_key (ev : Macro.event) : bool :=
  match ev with
  | Macro.GenerateKeyboardEvent _ _ _ => true
  | _ => false
  end.

(** The two lines of a recorded pointer action. *)
Definition delay_line : str := lit "c,delay,0.9" ++ [LF].

Definition pointer_line (x y : Z) (name : str) : str :=
  lit "m," ++ str_of_Z x ++ lit "," ++ str_of_Z y ++ lit "," ++ name ++ [LF].

(** Sum of the counts of a tally, or of the percentages of a report. *)
Definition total_count {K} (l : list (K * Z)) : Z :=
  foldr (fun e acc => snd e + acc) 0 l.

(** A report as the string [get_color_string] returns. *)
Definition entry_text (e : str * Z) : str :=
  fst e ++ lit ": " ++ str_of_Z (snd e) ++ lit " %, ".

Definition render (l : list (str * Z)) : str :=
  match l with
  | [] => Color.unknown
  | _ => Color.drop_last2 (concat (map entry_text l))
  end.

End Props.

Module Fixtures.

Import Macro.

(** The active log of some user. *)
Definition macro_file : str := lit "/home/user/.activeOCRMacro.ocrm".

(** An instance of [int] for the examples: plain decimal numerals. *)
Definition digit (c : char) : option Z :=
  if ((48 <=? c) && (c <=? 57))%N then Some (Z.of_N c - 48) else None.

Fixpoint digits (acc : Z) (s : str) : option Z :=
  match s with
  | [] => Some acc
  | c :: s' =>
      match digit c with
      | Some d => digits (10 * acc + d) s'
      | None => None
      end
  end.

Definition decimal_int (s : str) : option Z :=
  match s with
  | [] => None
  | c :: s' =>
      if (c =? 45)%N then
        match s' with [] => None | _ => Z.opp <$> digits 0 s' end
      else digits 0 s
  end.

(** An instance of [float] for the examples: it knows the delay that the
    recorder writes. *)
Definition delay_float (s : str) : option float :=
  if str_eqb s (lit "0.9") then Some 0.9%float else None.

Definition any_sleep (x : float) : bool := true.

(** A file system without links, where every file has one spelling: two
    paths name one file when they are equal. *)
Definition one_spelling (a b : str) : bool := str_eqb a b.

Definition no_keys (name : str) : option Z := None.

(** A world with the given text in the active log, or without the log. *)
Definition with_log (content : str) : world :=
  {| fs := {[ macro_file := File content ]};
     _macro_finished := false; events := [] |}.

Definition without_log : world :=
  {| fs := ∅; _macro_finished := false; events := [] |}.

(** A window with a manager, armed or not. *)
Definition a_window (armed : bool) : Gui.window :=
  {| Gui._save_to_macro := armed; Gui._macro := true;
     Gui._keyboard_overlay_active := true;
     Gui._gtk_main_running := true |}.

Definition key_a_pressed : Gui.key_event :=
  {| Gui.type := Gui.KEY_PRESSED_EVENT; Gui.event_string := lit "a" |}.

(** A box of four by two pixels: three red, three blue, two green. *)
Definition red : Color.pixel := (255, 0, 0).
Definition blue : Color.pixel := (0, 0, 255).
Definition lime : Color.pixel := (0, 255, 0).

Definition eight_pixels : list Color.pixel :=
  [red; blue; red; lime; blue; red; blue; lime].

Definition palette : list str := [lit "red"; lit "lime"; lit "blue"].

Definition nearest (p : Color.pixel) : result Z :=
  if decide (p = red) then Ok 0
  else if decide (p = lime) then Ok 1
  else if decide (p = blue) then Ok 2
  else Raise ValueError.

Definition crop8 (img : unit) (box : Z * Z * Z * Z)
    : result (list Color.pixel) :=
  Ok eight_pixels.

Definition box8 : Color.box_dict :=
  [("left"%string, [0]); ("top"%string, [0]);
   ("width"%string, [4]); ("height"%string, [2])].

Definition three_colors : Color.detector :=
  {| Color._max_colors := 3; Color._enabled := true |}.

Definition names8 : list (str * Z) :=
  [(lit "red", 3); (lit "blue", 3); (lit "lime", 2)].

(** The schedule of a thread that removes the log during the first sleep
    of the waiter. *)
Definition unloads_first : list (world -> world) :=
  [set_fs ∅].

(** The schedule of a playback thread that finishes during the second
    sleep of the waiter. *)
Definition finishes_second : list (world -> world) :=
  [fun w => w; set_finished true].

End Fixtures.

(** ** Predicates of the further properties *)

Module Further.

Import Ocr Props.

(** A glyph that [_process_ocr_words] passes over: its text is empty or
    white space only. *)
Definition blank_word (w : ocr_word) : bool :=
  negb (truthy (text w)) || str_isspace (text w).

(** Two characters of the class [[^\S\r\n]] side by side. *)
Fixpoint double_blank (s : str) : bool :=
  match s with
  | a :: (b :: _) as s' => (cls_hspace a && cls_hspace b) || double_blank s'
  | _ => false
  end.

(** The leading characters of the class [[^\S\r\n]]. *)
Fixpoint blank_run (s : str) : nat :=
  match s with
  | c :: s' => if cls_hspace c then S (blank_run s') else 0%nat
  | [] => 0%nat
  end.

Definition starts_blank (s : str) : bool :=
  match s with
  | c :: _ => cls_hspace c
  | [] => false
  end.

(** Two glyphs of the same line of the same paragraph, block and page. *)
Definition same_line (a b : ocr_word) : bool :=
  (page_num a =? page_num b) && (block_num a =? block_num b)
  && (par_num a =? par_num b) && (line_num a =? line_num b).

(** The neighbours in a sequence of glyphs that are not of the same
    line, counted from the glyph before the sequence. *)
Fixpoint breaks (prev : ocr_word) (ws : list ocr_word) : nat :=
  match ws with
  | [] => 0%nat
  | w :: ws' => ((if same_line prev w then 0 else 1) + breaks w ws')%nat
  end.

(** The loop state remembers the position of the glyph before. *)
Definition tracks (a : acc) (prev : ocr_word) : Prop :=
  last_page a = page_num prev /\ last_block a = block_num prev
  /\ last_par a = par_num prev /\ last_line a = line_num prev.

Definition count_char (c : char) (s : list char) : nat :=
  length (filter (fun d => d = c) s).

(** The name the reference palette gives a colour: the nearest
    neighbour of the tree, looked up in the list of names. *)
Definition nearest_name (color_names : list str)
    (kdt_query : Color.pixel -> result Z) (rgb : Color.pixel) : result str :=
  bind (kdt_query rgb) (index color_names).

(** Every name in the memo table is the one the palette gives. *)
Definition coherent (color_names : list str)
    (kdt_query : Color.pixel -> result Z) (c : gmap Color.pixel str) : Prop :=
  forall rgb name, c !! rgb = Some name ->
                   nearest_name color_names kdt_query rgb = Ok name.

(** Counts that do not increase along the list. *)
Fixpoint descending {K} (l : list (K * Z)) : bool :=
  match l with
  | a :: (b :: _) as l' => (snd b <=? snd a) && descending l'
  | _ => true
  end.

(** The events playback may cause: sleeps, and with [pyatspi] the
    injected pointer and key events; never a change of the listener. *)
Definition allowed (pyatspi_available : bool) (e : Macro.event) : bool :=
  match e with
  | Macro.Sleep _ => true
  | Macro.GenerateKeyboardEvent _ _ _ => pyatspi_available
  | Macro.GenerateMouseEvent _ _ _ => pyatspi_available
  | Macro.RegisterKeystrokeListener => false
  | Macro.DeregisterKeystrokeListener => false
  end.

(** A method that leaves the file system and the finished flag alone and
    only adds allowed events. *)
Definition tame (pyatspi_available : bool) {A} (m : Macro.M A) : Prop :=
  forall w,
    Macro.fs (snd (m w)) = Macro.fs w
    /\ Macro._macro_finished (snd (m w)) = Macro._macro_finished w
    /\ exists evs,
         Macro.events (snd (m w)) = Macro.events w ++ evs
         /\ forallb (allowed pyatspi_available) evs = true.

(** The loop of [wait_for_finish] goes on. *)
Definition still_waiting (_macro_file : str) (w : Macro.world) : bool :=
  negb (Macro.get_macro_finished w) && Macro.macro_exists _macro_file w.

(** A character that can stand in a field at the end of a line of the
    log: no white space and no comma. *)
Definition field_char (c : char) : bool :=
  negb (isspace c) && negb (c =? COMMA)%N.

(** A character that can stand inside a line of the log: no comma and no
    line end. *)
Definition inner_char (c : char) : bool :=
  plain c && negb (c =? COMMA)%N.

(** The phase of a key line as playback reads it. *)
Definition synth_of (event_type : Z) : Macro.synth :=
  if event_type =? 0 then Macro.KEY_PRESS
  else if event_type =? 1 then Macro.KEY_RELEASE
  else Macro.KEY_PRESSRELEASE.

(** The line recorded for a key. *)
Definition keyboard_line (key_value : Z) (key_string : str) (event_type : Z)
    : str :=
  lit "k," ++ str_of_Z key_value ++ lit "," ++ key_string ++ lit ","
  ++ str_of_Z event_type ++ [LF].

(** The listener of send-key mode called for each keystroke of a list in
    turn. *)
Fixpoint listen (_macro_file : str) (keys : list Gui.key_event)
    (g : Gui.window) : Macro.M Gui.window :=
  match keys with
  | [] => Macro.ret g
  | e :: rest =>
      Macro.seq (Gui._on_send_key _macro_file true e g)
        (fun r => listen _macro_file rest (snd r))
  end.

Definition f4_pressed : Gui.key_event :=
  {| Gui.type := Gui.KEY_PRESSED_EVENT; Gui.event_string := lit "F4" |}.

End Further.

(** ** [macro.py]: the handlers of the manager's dialog *)

Module Dialog.

Import Macro.

Section Handlers.

Variable _macro_file : str.

(** [_cancel]: hide the dialog, raise the finished flag if asked to, and
    leave the main loop. *)
Definition _cancel (set_the_flag : bool) : M unit :=
  act (fun w => if set_the_flag then set_finished true w else w).

Definition _on_cancel : M unit := _cancel true.

(** [_on_delete_macro]: the Unload button closes the dialog, the Unload
    menu item ([close=False]) does not. *)
Definition _on_delete_macro (close : bool) : M unit :=
  delete_macro _macro_file;;
  if close then _cancel true else ret tt.

End Handlers.

End Dialog.

(** ** [platform.py]: the display server *)

Module Platform.

Definition lower_ascii (c : char) : char :=
  if ((65 <=? c) && (c <=? 90))%N then (c + 32)%N else c.

Section Environment.

(** [os.environ.get]. *)
Variable environ : str -> option str.

(** [str.lower] on a text with a character outside ASCII: the case mapping
    of Unicode, which is not modelled. *)
Variable unicode_lower : str -> str.

(** [str.lower]: on a text of ASCII it maps [A]-[Z] to [a]-[z] and leaves
    the rest. *)
Definition lower (s : str) : str :=
  if forallb is_ascii s then map lower_ascii s else unicode_lower s.

(** Truthiness of what [os.environ.get] returns. *)
Definition set_and_not_empty (name : str) : bool :=
  match environ name with
  | Some value => truthy value
  | None => false
  end.

Definition detect_display_server : option str :=
  let session_type :=
    lower (default [] (environ (lit "XDG_SESSION_TYPE"))) in
  if str_eqb session_type (lit "wayland") || str_eqb session_type (lit "x11")
  then Some session_type
  else if set_and_not_empty (lit "WAYLAND_DISPLAY") then Some (lit "wayland")
  else if set_and_not_empty (lit "DISPLAY") then Some (lit "x11")
  else None.

End Environment.

End Platform.

(** ** [app.py]: the command line *)

Module App.

Import Macro.

(** The settings of [OCRDesktopApp] that the command line sets. *)
Record app := {
  _debug : bool;
  _show_help : bool;
  _screenshot_mode : Z;
  _file_path : str;
  _send_to_clipboard : bool;
  _print_to_stdout : bool;
  _hide_gui : bool;
  _language : str;
  _grayscale : bool;
  _invert : bool;
  _black_white : bool;
  _black_white_value : Z;
  _color_enabled : bool;
  _color_max : Z
}.

(** The settings of [__init__]. *)
Definition initial : app :=
  {| _debug := false; _show_help := false; _screenshot_mode := 0;
     _file_path := []; _send_to_clipboard := false;
     _print_to_stdout := false; _hide_gui := false; _language := lit "eng";
     _grayscale := false; _invert := false; _black_white := false;
     _black_white_value := 200; _color_enabled := false; _color_max := 3 |}.

Definition set_debug (a : app) : app :=
  {| _debug := true; _show_help := _show_help a;
     _screenshot_mode := _screenshot_mode a; _file_path := _file_path a;
     _send_to_clipboard := _send_to_clipboard a;
     _print_to_stdout := _print_to_stdout a; _hide_gui := _hide_gui a;
     _language := _language a; _grayscale := _grayscale a;
     _invert := _invert a; _black_white := _black_white a;
     _black_white_value := _black_white_value a;
     _color_enabled := _color_enabled a; _color_max := _color_max a |}.

(** [_print_help]: the help is printed and remembered. *)
Definition _print_help (a : app) : app :=
  {| _debug := _debug a; _show_help := true;
     _screenshot_mode := _screenshot_mode a; _file_path := _file_path a;
     _send_to_clipboard := _send_to_clipboard a;
     _print_to_stdout := _print_to_stdout a; _hide_gui := _hide_gui a;
     _language := _language a; _grayscale := _grayscale a;
     _invert := _invert a; _black_white := _black_white a;
     _black_white_value := _black_white_value a;
     _color_enabled := _color_enabled a; _color_max := _color_max a |}.

Definition set_mode (mode : Z) (path : str) (a : app) : app :=
  {| _debug := _debug a; _show_help := _show_help a;
     _screenshot_mode := mode; _file_path := path;
     _send_to_clipboard := _send_to_clipboard a;
     _print_to_stdout := _print_to_stdout a; _hide_gui := _hide_gui a;
     _language := _language a; _grayscale := _grayscale a;
     _invert := _invert a; _black_white := _black_white a;
     _black_white_value := _black_white_value a;
     _color_enabled := _color_enabled a; _color_max := _color_max a |}.

Definition set_output (clipboard stdout hide : bool) (a : app) : app :=
  {| _debug := _debug a; _show_help := _show_help a;
     _screenshot_mode := _screenshot_mode a; _file_path := _file_path a;
     _send_to_clipboard := clipboard; _print_to_stdout := stdout;
     _hide_gui := hide; _language := _language a;
     _grayscale := _grayscale a; _invert := _invert a;
     _black_white := _black_white a;
     _black_white_value := _black_white_value a;
     _color_enabled := _color_enabled a; _color_max := _color_max a |}.

Definition set_language (language : str) (a : app) : app :=
  {| _debug := _debug a; _show_help := _show_help a;
     _screenshot_mode := _screenshot_mode a; _file_path := _file_path a;
     _send_to_clipboard := _send_to_clipboard a;
     _print_to_stdout := _print_to_stdout a; _hide_gui := _hide_gui a;
     _language := language; _grayscale := _grayscale a;
     _invert := _invert a; _black_white := _black_white a;
     _black_white_value := _black_white_value a;
     _color_enabled := _color_enabled a; _color_max := _color_max a |}.

Definition set_image (grayscale invert black_white : bool) (value : Z)
    (a : app) : app :=
  {| _debug := _debug a; _show_help := _show_help a;
     _screenshot_mode := _screenshot_mode a; _file_path := _file_path a;
     _send_to_clipboard := _send_to_clipboard a;
     _print_to_stdout := _print_to_stdout a; _hide_gui := _hide_gui a;
     _language := _language a; _grayscale := grayscale;
     _invert := invert; _black_white := black_white;
     _black_white_value := value;
     _color_enabled := _color_enabled a; _color_max := _color_max a |}.

Definition set_color (enabled : bool) (max : Z) (a : app) : app :=
  {| _debug := _debug a; _show_help := _show_help a;
     _screenshot_mode := _screenshot_mode a; _file_path := _file_path a;
     _send_to_clipboard := _send_to_clipboard a;
     _print_to_stdout := _print_to_stdout a; _hide_gui := _hide_gui a;
     _language := _language a; _grayscale := _grayscale a;
     _invert := _invert a; _black_white := _black_white a;
     _black_white_value := _black_white_value a;
     _color_enabled := enabled; _color_max := max |}.

Section CommandLine.

Variable _macro_file : str.
Variable samefile : str -> str -> bool.

(** Whether GTK was imported, and the built-in [int]. *)
Variable ui_available : bool.
Variable py_int : str -> option Z.

(** The body of the loop over the options, for the option [opt] with the
    argument [arg]. *)
Definition handle (opt arg : str) (a : app) : M app :=
  if str_eqb opt (lit "-v") then ret (set_debug a)
  else if str_eqb opt (lit "-f") then ret (set_mode 3 arg a)
  else if str_eqb opt (lit "-C") then
    ret (if ui_available then set_mode 2 (_file_path a) a else a)
  else if str_eqb opt (lit "-d") then
    ret (if ui_available then set_mode 1 (_file_path a) a else a)
  else if str_eqb opt (lit "-g") then
    ret (set_image true (_invert a) (_black_white a) (_black_white_value a)
           a)
  else if str_eqb opt (lit "-i") then
    ret (set_image (_grayscale a) true (_black_white a)
           (_black_white_value a) a)
  else if str_eqb opt (lit "-b") then
    ret (set_image true (_invert a) true (_black_white_value a) a)
  else if str_eqb opt (lit "-t") then
    match py_int arg with
    | Some value =>
        ret (set_image (_grayscale a) (_invert a) (_black_white a) value a)
    | None => raise ValueError
    end
  else if str_eqb opt (lit "-c") then
    ret (if ui_available
         then set_output true (_print_to_stdout a) (_hide_gui a) a else a)
  else if str_eqb opt (lit "-l") then ret (set_language arg a)
  else if str_eqb opt (lit "-m") then
    if ui_available then load_macro_file _macro_file samefile arg;; ret a
    else ret a
  else if str_eqb opt (lit "-n") then
    ret (set_output (_send_to_clipboard a) (_print_to_stdout a) true a)
  else if str_eqb opt (lit "-o") then
    ret (set_output (_send_to_clipboard a) true (_hide_gui a) a)
  else if str_eqb opt (lit "-O") then ret (set_color true (_color_max a) a)
  else if str_eqb opt (lit "-x") then
    match py_int arg with
    | Some max => ret (set_color (_color_enabled a) max a)
    | None => raise ValueError
    end
  else if str_eqb opt (lit "-h") then ret (_print_help a)
  else ret a.

(** The loop; an exception ends it, and the [except] clause prints the
    help on the settings reached so far. *)
Fixpoint handle_all (opts : list (str * str)) (a : app) (w : world)
    : app * world :=
  match opts with
  | [] => (a, w)
  | (opt, arg) :: rest =>
      match handle opt arg a w with
      | (Ok a', w') => handle_all rest a' w'
      | (Raise _, w') => (_print_help a, w')
      end
  end.

(** [_parse_command_line] on what [getopt.getopt] returns or raises. *)
Definition _parse_command_line (getopt : result (list (str * str)))
    (a : app) (w : world) : app * world :=
  let a :=
    if negb ui_available
    then set_output (_send_to_clipboard a) (_print_to_stdout a) true a
    else a in
  match getopt with
  | Ok opts => handle_all opts a w
  | Raise _ => (_print_help a, w)
  end.

End CommandLine.

End App.

(** ** Properties of the settings and of the environment *)

Module Settings.

Import App.

(** The settings that are switches. *)
Definition switches (a : app) : list bool :=
  [_debug a; _show_help a; _send_to_clipboard a; _print_to_stdout a;
   _hide_gui a; _grayscale a; _invert a; _black_white a; _color_enabled a].

(** Every switch that is on in [a] is on in [b]. *)
Definition keeps_switches (a b : app) : bool :=
  forallb (fun p => implb (fst p) (snd p)) (zip (switches a) (switches b)).

(** Black and white goes with grey scale, and the screenshot mode is one
    of window, desktop, clipboard and file. *)
Definition sound_settings (a : app) : bool :=
  implb (_black_white a) (_grayscale a)
  && (0 <=? _screenshot_mode a) && (_screenshot_mode a <=? 3).

(** The text spells [name] in ASCII letters of either case. *)
Definition spells (name s : str) : bool :=
  forallb is_ascii s && str_eqb (map Platform.lower_ascii s) name.

(** The option is [-h], or a [-t] or [-x] whose argument [int] refuses. *)
Definition asks_for_help (py_int : str -> option Z) (o : str * str)
    : bool :=
  str_eqb (fst o) (lit "-h")
  || ((str_eqb (fst o) (lit "-t") || str_eqb (fst o) (lit "-x"))
      && match py_int (snd o) with
         | None => true
         | Some _ => false
         end).

End Settings.

(** ** The inputs of the further examples *)

Module Samples.

Import Ocr Macro Fixtures.

(** Two glyphs on two lines, and a blank glyph as the engine returns it
    for a block or a line. *)
Definition hello : ocr_word := glyph "Hello" 1 1 1 1.
Definition world_below : ocr_word := glyph "World" 1 1 1 2.
Definition blank : ocr_word := glyph " " 1 1 1 0.
Definition empty : ocr_word := glyph "" 1 1 0 0.

(** A memo table that knows red. *)
Definition knows_red : gmap Color.pixel str := {[ red := lit "red" ]}.

(** A macro of one delay line, stored somewhere else. *)
Definition stored_macro : str := lit "/home/user/click.ocrm".

Definition with_stored_macro : world :=
  {| fs := {[ stored_macro := File (lit "c,delay,0.9" ++ [LF]) ]};
     _macro_finished := false; events := [] |}.

Definition key_a_released : Gui.key_event :=
  {| Gui.type := Gui.KEY_RELEASED_EVENT; Gui.event_string := lit "a" |}.

(** The environment of a Wayland session with an X server for the
    programs that need one, and a case mapping that is never asked. *)
Definition xwayland (name : str) : option str :=
  if str_eqb name (lit "XDG_SESSION_TYPE") then Some (lit "Wayland")
  else if str_eqb name (lit "DISPLAY") then Some (lit ":0")
  else None.

Definition no_mapping (s : str) : str := s.

(** Command lines as [getopt] returns them. *)
Definition black_and_white_clipboard : list (str * str) :=
  [(lit "-b", []); (lit "-C", [])].

Definition bad_threshold : list (str * str) :=
  [(lit "-g", []); (lit "-t", lit "dark"); (lit "-n", [])].

End Samples.

(** * The properties *)

(** ** Text reconstruction *)

Section OcrFacts.

Import Ocr Props.

(** The text that [_process_ocr_words] builds for the two glyphs, before
    the cleanup. *)
Lemma hello_world_raw :
  fst (_process_ocr_words None false
         [glyph "Hello" 1 1 1 1; glyph "World" 1 1 1 2])
  = lit "Hello" ++ [LF] ++ lit "World" ++ [LF].
Proof. reflexivity. Qed.

(** The substitutions of [_clean_text] already take the final newline
    away. *)
Lemma hello_world_substitutions :
  substitutions (lit "Hello" ++ [LF] ++ lit "World" ++ [LF])
  = lit "Hello" ++ [LF] ++ lit "World".
Proof. vm_compute. reflexivity. Qed.

(** C1. For the glyphs "Hello" (line 1) and "World" (line 2) of one
    paragraph, processing followed by cleanup does not return
    "Hello\nWorld": the substitutions produce that text, and the final
    [text[:-1]] then cuts its last letter, leaving "Hello\nWorl". *)
Theorem hello_world_loses_last_letter :
  reconstruct [glyph "Hello" 1 1 1 1; glyph "World" 1 1 1 2]
  = lit "Hello" ++ [LF] ++ lit "Worl"
  /\ reconstruct [glyph "Hello" 1 1 1 1; glyph "World" 1 1 1 2]
     <> lit "Hello" ++ [LF] ++ lit "World".
Proof. split; [vm_compute; reflexivity | vm_compute; discriminate]. Qed.

(** C2. For the glyphs "a" (line 1) and "b" (line 2), processing followed
    by cleanup returns "a\n": the text ends with a newline, and its last
    line is empty. *)
Theorem one_letter_last_word_leaves_newline :
  reconstruct [glyph "a" 1 1 1 1; glyph "b" 1 1 1 2] = lit "a" ++ [LF]
  /\ trailing_newline (reconstruct [glyph "a" 1 1 1 1; glyph "b" 1 1 1 2])
     = true
  /\ blank_line (reconstruct [glyph "a" 1 1 1 1; glyph "b" 1 1 1 2]) = true.
Proof. repeat split; vm_compute; reflexivity. Qed.

(** *** The cleanup on words separated by single separators *)

Lemma sparse_tail (c : char) (s : str) : sparse (c :: s) = true ->
  sparse s = true.
Proof. destruct s; [done |]. cbn [sparse]. by intros [_ H]%andb_prop. Qed.

Lemma nl_isspace (c : char) : cls_nl c = true -> isspace c = true.
Proof. unfold cls_nl. by intros ->%N.eqb_eq. Qed.

Lemma hspace_isspace (c : char) : cls_hspace c = true -> isspace c = true.
Proof.
  unfold cls_hspace. intros H.
  apply andb_prop in H as [H _]. by apply andb_prop in H as [H _].
Qed.

Lemma sparse_pair (a b : char) (s : str) :
  sparse (a :: b :: s) = true -> isspace a = true -> isspace b = false.
Proof.
  cbn [sparse]. intros [H _]%andb_prop Ha. rewrite Ha in H.
  by destruct (isspace b).
Qed.

(** A substitution whose pattern matches nowhere changes nothing. *)
Lemma sub_from_unmatched (P : str -> Prop) (p : list atom) (repl : str) :
  (forall c s, P (c :: s) -> P s) ->
  (forall s b, P s -> match_here p b s = None) ->
  forall s b, P s -> sub_from p repl 0 b s = s.
Proof.
  intros Htail Hnone s. induction s as [| c s IH]; intros b HP.
  - cbn [sub_from]. by rewrite Hnone.
  - cbn [sub_from]. rewrite Hnone by done. f_equal. eauto.
Qed.

Lemma double_spaces_unmatched (s : str) (b : bool) :
  sparse s = true -> match_here double_spaces b s = None.
Proof.
  unfold double_spaces. cbn [match_here].
  destruct s as [| a [| c s]]; intros Hs; cbn [greedy Nat.leb].
  - done.
  - by destruct (cls_hspace a).
  - destruct (cls_hspace a) eqn:Ha; [| done].
    apply hspace_isspace in Ha.
    pose proof (sparse_pair _ _ _ Hs Ha) as Hc.
    destruct (cls_hspace c) eqn:Hc'; [| done].
    apply hspace_isspace in Hc'. congruence.
Qed.

Lemma empty_lines_unmatched (s : str) (b : bool) :
  sparse s = true -> match_here empty_lines b s = None.
Proof.
  unfold empty_lines. cbn [match_here].
  destruct s as [| a [| c s]]; intros Hs; [done | |].
  - destruct (cls_nl a); [| done]. cbn [greedy Nat.leb match_here]. done.
  - destruct (cls_nl a) eqn:Ha; [| done]. apply nl_isspace in Ha.
    pose proof (sparse_pair _ _ _ Hs Ha) as Hc.
    cbn [greedy Nat.leb match_here]. unfold cls_s. rewrite Hc.
    destruct (cls_nl c) eqn:Hc'; [| done].
    apply nl_isspace in Hc'. congruence.
Qed.

Lemma after_newline_unmatched (s : str) (b : bool) :
  sparse s = true -> match_here after_newline b s = None.
Proof.
  unfold after_newline. cbn [match_here].
  destruct s as [| a [| c s]]; intros Hs; [done | |].
  - by destruct (cls_nl a).
  - destruct (cls_nl a) eqn:Ha; [| done]. apply nl_isspace in Ha.
    unfold cls_s. by rewrite (sparse_pair _ _ _ Hs Ha).
Qed.

(** [\s*\n] matches exactly the single newlines of such a text. *)
Lemma ending_spaces_match (c : char) (s : str) (b : bool) :
  sparse (c :: s) = true ->
  match_here ending_spaces b (c :: s)
  = if cls_nl c then Some 1%nat else None.
Proof.
  unfold ending_spaces. cbn [match_here]. intros Hs.
  cbn [greedy Nat.leb]. unfold cls_s at 1.
  destruct (isspace c) eqn:Hc.
  - destruct s as [| d s].
    + cbn [greedy Nat.leb match_here]. by destruct (cls_nl c).
    + pose proof (sparse_pair _ _ _ Hs Hc) as Hd.
      cbn [greedy Nat.leb match_here]. unfold cls_s. rewrite Hd.
      destruct (cls_nl d) eqn:Hd'.
      * apply nl_isspace in Hd'. congruence.
      * by destruct (cls_nl c).
  - cbn [match_here]. destruct (cls_nl c) eqn:Hc'; [| done].
    apply nl_isspace in Hc'. congruence.
Qed.

Lemma ending_spaces_keeps (s : str) (b : bool) :
  sparse s = true -> sub_from ending_spaces [LF] 0 b s = s.
Proof.
  revert b. induction s as [| c s IH]; intros b Hs.
  - reflexivity.
  - cbn [sub_from]. rewrite ending_spaces_match by done.
    pose proof (sparse_tail _ _ Hs) as Hs'.
    destruct (cls_nl c) eqn:Hc.
    + apply N.eqb_eq in Hc as ->. cbn [app]. f_equal. by apply IH.
    + f_equal. by apply IH.
Qed.

Lemma first_space_keeps_later (repl s : str) :
  sub_from first_space repl 0 false s = s.
Proof. induction s as [| c s IH]; [done |]. cbn. by rewrite IH. Qed.

Lemma first_space_keeps (repl s : str) :
  starts_solid s = true -> re_sub first_space repl s = s.
Proof.
  destruct s as [| c s]; [done |]. cbn [starts_solid].
  intros Hc%negb_true_iff. unfold re_sub, first_space.
  cbn [sub_from match_here]. unfold cls_s. rewrite Hc.
  f_equal. apply first_space_keeps_later.
Qed.

(** [$\n] takes the newline that ends the text. *)
Lemma ending_newline_cut (t : str) (b : bool) :
  sub_from ending_newline [] 0 b (t ++ [LF]) = t.
Proof.
  revert b. induction t as [| c t IH]; intros b.
  - reflexivity.
  - assert (match_here ending_newline b (c :: t ++ [LF]) = None) as Hm
      by (by destruct t).
    cbn [app sub_from]. rewrite Hm. f_equal. apply IH.
Qed.

Lemma sparse_snoc (s : str) (c : char) :
  sparse s = true -> ends_solid s = true -> sparse (s ++ [c]) = true.
Proof.
  induction s as [| a [| d s] IH]; [done | |].
  - unfold ends_solid. cbn. intros _ Ha%negb_true_iff. by rewrite Ha.
  - intros Hs He. cbn [app sparse] in *.
    apply andb_prop in Hs as [-> Hs]. cbn [andb].
    apply IH; [done |]. by rewrite <- He.
Qed.

Lemma starts_solid_snoc (s : str) (c : char) :
  starts_solid s = true -> starts_solid (s ++ [c]) = true.
Proof. by destruct s. Qed.

(** The substitutions bring words separated by single separators and ended
    by a newline to the words without that newline; the slice that follows
    takes the last character of the last word. *)
Lemma clean_text_tidy (t : str) :
  tidy t = true ->
  substitutions (t ++ [LF]) = t /\ _clean_text (t ++ [LF]) = drop_last t.
Proof.
  unfold tidy. intros H.
  apply andb_prop in H as [H Hends]. apply andb_prop in H as [Hsparse Hstarts].
  assert (substitutions (t ++ [LF]) = t) as Hsub.
  { unfold substitutions.
    pose proof (sparse_snoc t LF Hsparse Hends) as Hraw.
    unfold re_sub at 6.
    rewrite (sub_from_unmatched (fun s => sparse s = true) double_spaces)
      by (done || apply sparse_tail || intros; by apply double_spaces_unmatched).
    unfold re_sub at 5.
    rewrite (sub_from_unmatched (fun s => sparse s = true) empty_lines)
      by (done || apply sparse_tail || intros; by apply empty_lines_unmatched).
    unfold re_sub at 4. rewrite ending_spaces_keeps by done.
    rewrite first_space_keeps by (by apply starts_solid_snoc).
    unfold re_sub at 2. rewrite ending_newline_cut.
    unfold re_sub.
    by rewrite (sub_from_unmatched (fun s => sparse s = true) after_newline)
      by (done || apply sparse_tail || intros; by apply after_newline_unmatched). }
  split; [done |]. unfold _clean_text. rewrite Hsub.
  by destruct t.
Qed.

(** *** The text of the glyphs *)

Lemma solid_inv (s : str) :
  solid s = true ->
  exists c r, s = c :: r /\ isspace c = false
              /\ forallb (fun c => negb (isspace c)) r = true.
Proof.
  unfold solid. destruct s as [| c r]; [done |]. cbn [truthy forallb andb].
  intros [Hc Hr]%andb_prop. apply negb_true_iff in Hc. eauto.
Qed.

Lemma solid_sparse (s : str) :
  forallb (fun c => negb (isspace c)) s = true -> sparse s = true.
Proof.
  induction s as [| a [| b s] IH]; [done | done |].
  intros [Ha Hs]%andb_prop. apply negb_true_iff in Ha.
  cbn [sparse]. rewrite Ha. cbn [andb negb]. by apply IH.
Qed.

Lemma solid_ends (c : char) (r : str) :
  isspace c = false -> forallb (fun c => negb (isspace c)) r = true ->
  ends_solid (c :: r) = true.
Proof.
  unfold ends_solid. revert c. induction r as [| d r IH]; intros c Hc Hr.
  - cbn. by rewrite Hc.
  - rewrite last_cons_cons. apply andb_prop in Hr as [Hd Hr].
    apply negb_true_iff in Hd. by apply IH.
Qed.

Lemma sparse_app (s u : str) :
  sparse s = true -> ends_solid s = true -> sparse u = true ->
  sparse (s ++ u) = true.
Proof.
  intros Hs He Hu. induction s as [| a [| d s] IH]; [done | |].
  - unfold ends_solid in He. cbn in He. apply negb_true_iff in He.
    destruct u as [| b u]; [done |]. cbn [app sparse]. rewrite He.
    cbn [andb negb]. exact Hu.
  - cbn [app sparse] in *. apply andb_prop in Hs as [-> Hs]. cbn [andb].
    apply IH; [done |]. by rewrite <- He.
Qed.

(** A separator and a word after tidy text give tidy text. *)
Lemma tidy_app_word (t : str) (x : char) (word : str) :
  tidy t = true -> solid word = true -> tidy (t ++ [x] ++ word) = true.
Proof.
  unfold tidy. intros H Hword.
  apply andb_prop in H as [H Hends]. apply andb_prop in H as [Hsparse Hstarts].
  destruct (solid_inv _ Hword) as (c & r & -> & Hc & Hr).
  apply andb_true_intro. split; [apply andb_true_intro; split |].
  - apply sparse_app; [done | done |].
    change (negb (isspace x && isspace c) && sparse (c :: r) = true).
    rewrite Hc, andb_false_r. cbn [negb andb].
    apply (solid_sparse (c :: r)). cbn [forallb]. by rewrite Hc.
  - by destruct t.
  - unfold ends_solid. cbn [app]. rewrite last_app_cons, last_cons_cons.
    by apply solid_ends.
Qed.

Lemma tidy_word (word : str) : solid word = true -> tidy word = true.
Proof.
  intros Hword. destruct (solid_inv _ Hword) as (c & r & -> & Hc & Hr).
  unfold tidy. rewrite (solid_ends c r Hc Hr).
  cbn [starts_solid]. rewrite Hc.
  rewrite (solid_sparse (c :: r)); [done |]. cbn [forallb]. by rewrite Hc.
Qed.

Lemma solid_not_skipped (word : str) :
  solid word = true -> negb (truthy word) || str_isspace word = false.
Proof.
  intros Hword. destruct (solid_inv _ Hword) as (c & r & -> & Hc & Hr).
  cbn [truthy negb orb str_isspace forallb]. by rewrite Hc.
Qed.

(** The loop keeps its text tidy once the first word is in. *)
Lemma step_first (w : ocr_word) (a : acc) :
  a_text a = [] -> last_line a = -1 -> engine_word w = true ->
  tidy (a_text (step None false a w)) = true
  /\ last_line (step None false a w) <> -1.
Proof.
  unfold engine_word. intros Htext Hlast [Hword Hline]%andb_prop.
  apply negb_true_iff, Z.eqb_neq in Hline.
  unfold step. rewrite (solid_not_skipped _ Hword), Htext, Hlast.
  cbn. split; [by apply tidy_word | done].
Qed.

Lemma step_next (w : ocr_word) (a : acc) :
  tidy (a_text a) = true -> last_line a <> -1 -> engine_word w = true ->
  tidy (a_text (step None false a w)) = true
  /\ last_line (step None false a w) <> -1.
Proof.
  unfold engine_word. intros Htidy Hlast [Hword Hline]%andb_prop.
  apply negb_true_iff, Z.eqb_neq in Hline.
  unfold step. rewrite (solid_not_skipped _ Hword).
  apply Z.eqb_neq in Hlast as ->. cbn [negb].
  split; [| done]. cbn [a_text].
  destruct (_ || _); by apply tidy_app_word.
Qed.

Lemma fold_step_tidy (ws : list ocr_word) (a : acc) :
  tidy (a_text a) = true -> last_line a <> -1 ->
  forallb engine_word ws = true ->
  tidy (a_text (fold_left (step None false) ws a)) = true.
Proof.
  revert a. induction ws as [| w ws IH]; intros a Htidy Hlast Hws; [done |].
  apply andb_prop in Hws as [Hw Hws]. cbn [fold_left].
  destruct (step_next w a Htidy Hlast Hw) as [Htidy' Hlast'].
  by apply IH.
Qed.

(** For every non-empty sequence of glyphs as the engine returns them, the
    text built by [_process_ocr_words] is tidy text [t] and a newline; the
    substitutions of [_clean_text] give [t], which has no doubled white
    space, no blank line and no newline at its end; and the text returned
    is [t] without its last character. *)
Lemma reconstruct_cuts_last_character (ws : list ocr_word) :
  ws <> [] -> forallb engine_word ws = true ->
  exists t,
    tidy t = true
    /\ fst (_process_ocr_words None false ws) = t ++ [LF]
    /\ substitutions (t ++ [LF]) = t
    /\ reconstruct ws = drop_last t.
Proof.
  destruct ws as [| w ws]; [done |]. intros _ Hws.
  apply andb_prop in Hws as [Hw Hws].
  destruct (step_first w
              {| a_text := []; a_words := []; last_page := -1;
                 last_block := -1; last_par := -1; last_line := -1 |}
              eq_refl eq_refl Hw) as [Htidy Hlast].
  pose proof (fold_step_tidy ws _ Htidy Hlast Hws) as Ht.
  eexists. split; [exact Ht |].
  split; [reflexivity |].
  destruct (clean_text_tidy _ Ht) as [Hsub Hclean].
  split; [exact Hsub |]. exact Hclean.
Qed.

Lemma tidy_no_trailing_newline (t : str) :
  tidy t = true -> trailing_newline t = false.
Proof.
  unfold tidy, ends_solid, trailing_newline.
  intros [_ H]%andb_prop. destruct (last t) as [c |]; [| done].
  apply negb_true_iff in H. destruct (c =? LF)%N eqn:E; [| done].
  apply N.eqb_eq in E as ->. done.
Qed.

Lemma tidy_no_double_space (t : str) :
  sparse t = true -> double_space t = false.
Proof.
  induction t as [| a [| b t] IH]; [done | done |].
  change (sparse (a :: b :: t))
    with (negb (isspace a && isspace b) && sparse (b :: t)).
  change (double_space (a :: b :: t))
    with ((isspace a && negb (a =? LF)%N && isspace b && negb (b =? LF)%N)
          || double_space (b :: t)).
  intros [H Ht]%andb_prop. rewrite IH by done. rewrite orb_false_r.
  destruct (isspace a), (isspace b); try done;
    cbn [andb]; by rewrite ?andb_false_r.
Qed.

Lemma lines_of_sparse (s : str) :
  sparse s = true -> ends_solid s = true ->
  match split LF s with
  | h :: tl =>
      (forallb isspace h = true -> exists r, s = LF :: r)
      /\ existsb (forallb isspace) tl = false
  | [] => False
  end.
Proof.
  induction s as [| c [| d s] IH].
  - done.
  - intros _ Hc. unfold ends_solid in Hc. cbn [last] in Hc.
    apply negb_true_iff in Hc. cbn [split].
    destruct (c =? LF)%N eqn:E.
    + apply N.eqb_eq in E as ->. done.
    + split; [| done]. cbn [forallb]. by rewrite Hc.
  - intros Hs He.
    assert (ends_solid (d :: s) = true) as He'
      by (unfold ends_solid in *; by rewrite last_cons_cons in He).
    specialize (IH (sparse_tail _ _ Hs) He').
    change (split LF (c :: d :: s))
      with (if (c =? LF)%N then [] :: split LF (d :: s)
            else match split LF (d :: s) with
                 | field :: fields => (c :: field) :: fields
                 | [] => [[c]]
                 end).
    destruct (split LF (d :: s)) as [| h tl]; [done |].
    destruct IH as [Hhead Htail].
    assert (forallb isspace h = true -> isspace c = false) as Hblank.
    { intros Hh. destruct (Hhead Hh) as [r [= -> _]].
      destruct (isspace c) eqn:Hc; [| done].
      pose proof (sparse_pair _ _ _ Hs Hc) as Hd. by vm_compute in Hd. }
    destruct (c =? LF)%N eqn:E.
    + apply N.eqb_eq in E as ->. split; [eauto |].
      cbn [existsb]. rewrite Htail, orb_false_r.
      destruct (forallb isspace h) eqn:Hh; [| done].
      by specialize (Hblank eq_refl).
    + split; [| done]. cbn [forallb]. intros [Hc Hh]%andb_prop.
      specialize (Hblank Hh). congruence.
Qed.

Lemma tidy_no_blank_line (t : str) : tidy t = true -> blank_line t = false.
Proof.
  unfold tidy, blank_line. intros H.
  apply andb_prop in H as [H Hends]. apply andb_prop in H as [Hsparse Hstarts].
  pose proof (lines_of_sparse t Hsparse Hends) as Hlines.
  destruct (split LF t) as [| h tl]; [done |].
  destruct Hlines as [Hhead Htail]. cbn [existsb]. rewrite Htail, orb_false_r.
  destruct (forallb isspace h) eqn:Hh; [| done].
  destruct (Hhead eq_refl) as [r ->]. done.
Qed.

(** X1. What the cleanup is written to achieve holds of the text before
    the final slice: for glyphs as the engine returns them, the substitutions
    leave no doubled white space, no blank line and no newline at the end.
    The slice [text[:-1]] then removes a character of the last word. *)
Lemma substitutions_normalize (ws : list ocr_word) :
  ws <> [] -> forallb engine_word ws = true ->
  let t := substitutions (fst (_process_ocr_words None false ws)) in
  double_space t = false /\ blank_line t = false
  /\ trailing_newline t = false /\ reconstruct ws = drop_last t
  /\ t <> [].
Proof.
  intros Hne Hws.
  destruct (reconstruct_cuts_last_character ws Hne Hws)
    as (t & Htidy & Hraw & Hsub & Hrec).
  cbn zeta. rewrite Hraw, Hsub.
  split; [apply tidy_no_double_space |].
  { unfold tidy in Htidy. apply andb_prop in Htidy as [H _].
    by apply andb_prop in H as [H _]. }
  split; [by apply tidy_no_blank_line |].
  split; [by apply tidy_no_trailing_newline |].
  split; [done |]. intros ->. done.
Qed.

End OcrFacts.

(** ** Strings without line ends *)

Section Lines.

Import Macro Props.

Lemma plain_uint (d : Decimal.uint) :
  forallb plain (lit (NilEmpty.string_of_uint d)) = true.
Proof. induction d; simpl; auto. Qed.

Lemma plain_uint_zero (d : Decimal.uint) :
  forallb plain (lit (NilZero.string_of_uint d)) = true.
Proof.
  destruct d; try reflexivity;
    match goal with
    | |- context [NilZero.string_of_uint ?x] => exact (plain_uint x)
    end.
Qed.

Lemma plain_str_of_Z (n : Z) : forallb plain (str_of_Z n) = true.
Proof.
  unfold str_of_Z, NilZero.string_of_int.
  destruct (Z.to_int n) as [d | d].
  - apply plain_uint_zero.
  - change (plain 45%N && forallb plain (lit (NilZero.string_of_uint d))
            = true).
    rewrite plain_uint_zero. reflexivity.
Qed.

Lemma ascii_uint (d : Decimal.uint) :
  forallb is_ascii (lit (NilEmpty.string_of_uint d)) = true.
Proof. induction d; simpl; auto. Qed.

Lemma ascii_uint_zero (d : Decimal.uint) :
  forallb is_ascii (lit (NilZero.string_of_uint d)) = true.
Proof.
  destruct d; try reflexivity;
    match goal with
    | |- context [NilZero.string_of_uint ?x] => exact (ascii_uint x)
    end.
Qed.

(** A numeral is written in ASCII. *)
Lemma ascii_str_of_Z (n : Z) : forallb is_ascii (str_of_Z n) = true.
Proof.
  unfold str_of_Z, NilZero.string_of_int.
  destruct (Z.to_int n) as [d | d].
  - apply ascii_uint_zero.
  - change (is_ascii 45%N
            && forallb is_ascii (lit (NilZero.string_of_uint d)) = true).
    rewrite ascii_uint_zero. reflexivity.
Qed.

(** A text of ASCII is written as it is. *)
Lemma write_text_ascii (path data : str) (w : world) :
  forallb is_ascii data = true ->
  write_text path data w = append_file path data w.
Proof. intros H. unfold write_text. by rewrite H. Qed.

(** A text with a character outside ASCII is refused, and the file is as
    it was, or new and empty. *)
Lemma write_text_refused (path data : str) (w : world) :
  forallb is_ascii data = false ->
  exists e w',
    write_text path data w = (Raise e, w')
    /\ Props.log_text path w' = Props.log_text path w
    /\ events w' = events w.
Proof.
  intros H. unfold write_text, Props.log_text. rewrite H.
  destruct (fs w !! path) as [[content |] |] eqn:E;
    eexists _, _; (split; [reflexivity |]); cbn [fs set_fs events];
    rewrite ?lookup_insert_eq, ?E; done.
Qed.

Lemma universal_newlines_plain (s t : str) :
  forallb plain s = true ->
  universal_newlines false (s ++ LF :: t)
  = s ++ LF :: universal_newlines false t.
Proof.
  induction s as [| c s IH]; intros Hs.
  - reflexivity.
  - simpl in Hs. apply andb_prop in Hs as [Hc Hs].
    unfold plain in Hc. apply andb_prop in Hc as [Hlf Hcr].
    apply negb_true_iff in Hlf, Hcr.
    simpl. rewrite Hcr, Hlf. simpl. f_equal. auto.
Qed.

Lemma lines_from_plain (cur s t : str) :
  forallb plain s = true ->
  lines_from cur (s ++ LF :: t) = (cur ++ s ++ [LF]) :: lines_from [] t.
Proof.
  revert cur. induction s as [| c s IH]; intros cur Hs.
  - reflexivity.
  - simpl in Hs. apply andb_prop in Hs as [Hc Hs].
    unfold plain in Hc. apply andb_prop in Hc as [Hlf _].
    apply negb_true_iff in Hlf.
    simpl. rewrite Hlf. rewrite IH by assumption.
    by rewrite <- app_assoc.
Qed.

(** Two terminated lines written one after the other are read back as those
    two lines. *)
Lemma readlines_two (a b : str) :
  forallb plain a = true -> forallb plain b = true ->
  readlines ((a ++ [LF]) ++ (b ++ [LF])) = [a ++ [LF]; b ++ [LF]].
Proof.
  intros Ha Hb. unfold readlines.
  replace ((a ++ [LF]) ++ b ++ [LF]) with (a ++ LF :: b ++ LF :: [])
    by (rewrite <- app_assoc; reflexivity).
  rewrite universal_newlines_plain by assumption.
  rewrite universal_newlines_plain by assumption.
  rewrite lines_from_plain by assumption.
  rewrite lines_from_plain by assumption.
  reflexivity.
Qed.

End Lines.

(** ** The event log and its playback *)

Section MacroFacts.

Import Macro Props.

Variable _macro_file : str.
Variable samefile : str -> str -> bool.
Variable pyatspi_available : bool.
Variable py_int : str -> option Z.
Variable py_float : str -> option float.
Variable sleep_valid : float -> bool.
Variable KEY_CODE : str -> option Z.

Local Abbreviation run_line :=
  (run_line pyatspi_available py_int py_float sleep_valid KEY_CODE).
Local Abbreviation run_lines :=
  (run_lines pyatspi_available py_int py_float sleep_valid KEY_CODE).
Local Abbreviation run_macro :=
  (run_macro _macro_file pyatspi_available py_int py_float sleep_valid
     KEY_CODE).
Local Abbreviation wait_loop := (wait_loop _macro_file).
Local Abbreviation wait_for_finish := (wait_for_finish _macro_file).
Local Abbreviation macro_exists := (macro_exists _macro_file).
Local Abbreviation load_macro_file :=
  (load_macro_file _macro_file samefile).

(** The first field of a line always exists: [split] never returns an empty
    list. *)
Lemma split_not_nil (sep : char) (s : str) : split sep s <> [].
Proof.
  induction s as [| c s IH]; simpl; [discriminate |].
  destruct (c =? sep)%N; [discriminate |].
  destruct (split sep s); discriminate.
Qed.

Lemma index_lookup {A} (l : list A) (n : nat) :
  index l (Z.of_nat n)
  = match l !! n with Some a => Ok a | None => Raise IndexError end.
Proof.
  unfold index.
  destruct (Z.ltb_spec (Z.of_nat n) 0) as [H | H]; [lia |].
  destruct (Z.ltb_spec (Z.of_nat n) 0); [lia |].
  by rewrite Nat2Z.id.
Qed.

Lemma index_first (line : str) :
  index (split COMMA (strip line)) 0 = Ok (tag line).
Proof.
  unfold index, tag. simpl.
  destruct (split COMMA (strip line)) eqn:E; [| reflexivity].
  by apply split_not_nil in E.
Qed.

Lemma index_second (line : str) (what : str) :
  second line = Some what -> index (split COMMA (strip line)) 1 = Ok what.
Proof.
  unfold second. intros H.
  change 1 with (Z.of_nat 1). by rewrite index_lookup, H.
Qed.

(** An unrecognized line does nothing. *)
Lemma run_line_unrecognized (line : str) (w : world) :
  unrecognized line = true -> run_line line w = (Ok tt, w).
Proof.
  unfold unrecognized, Macro.run_line, seq, lift.
  rewrite index_first. intros H.
  apply orb_prop in H as [H | H].
  - apply andb_prop in H as [H Hm]. apply andb_prop in H as [Hc Hk].
    apply negb_true_iff in Hc, Hk, Hm. by rewrite Hc, Hk, Hm.
  - apply andb_prop in H as [Hc H]. rewrite Hc.
    destruct (second line) as [what |] eqn:E; [| discriminate].
    rewrite (index_second _ _ E). apply negb_true_iff in H.
    by rewrite H.
Qed.

(** A key line with key code 0 and no symbol does nothing either. *)
Lemma run_line_empty_key (line : str) (w : world) :
  empty_key py_int line = true -> run_line line w = (Ok tt, w).
Proof.
  unfold empty_key, Macro.run_line, seq, lift, to_int.
  rewrite index_first. intros H.
  apply andb_prop in H as [Htag H].
  apply bool_decide_eq_true in Htag. rewrite Htag.
  change (str_eqb (lit "k") (lit "c")) with false.
  change (str_eqb (lit "k") (lit "k")) with true. cbv iota.
  change 1 with (Z.of_nat 1). change 2 with (Z.of_nat 2).
  change 3 with (Z.of_nat 3). rewrite !index_lookup.
  destruct (split COMMA (strip line) !! 1%nat) as [code |]; [| done].
  destruct (split COMMA (strip line) !! 2%nat) as [symbol |]; [| done].
  destruct (split COMMA (strip line) !! 3%nat) as [ph |]; [| done].
  apply andb_prop in H as [H Hph]. apply andb_prop in H as [Hcode Hsym].
  apply bool_decide_eq_true in Hcode, Hph. apply negb_true_iff in Hsym.
  rewrite Hcode. destruct Hph as [n ->].
  unfold _do_keyboard_step. rewrite Hsym.
  by destruct pyatspi_available.
Qed.

Lemma run_line_skipped (line : str) (w : world) :
  skipped py_int line = true -> run_line line w = (Ok tt, w).
Proof.
  intros [H | H]%orb_prop;
    [by apply run_line_unrecognized | by apply run_line_empty_key].
Qed.

Lemma run_lines_all_skipped (lines : list str) (w : world) :
  forallb (skipped py_int) lines = true -> run_lines lines w = (Ok tt, w).
Proof.
  induction lines as [| line lines IH]; [done |].
  intros [Hline Hrest]%andb_prop. cbn [Macro.run_lines]. unfold seq.
  rewrite run_line_skipped by assumption. by apply IH.
Qed.

(** C4, as the code has it. Playback passes over a line whose first
    field is none of [c], [k] and [m], over a [c] line whose second field
    is not [delay], and over a key line with key code 0, an empty symbol
    and a numeric phase: with such a line anywhere among the lines of the
    log, playback does exactly what it does on the lines without it. *)
Theorem skipped_line_changes_nothing (before after : list str) (line : str)
    (w : world) :
  skipped py_int line = true ->
  run_lines (before ++ line :: after) w = run_lines (before ++ after) w.
Proof.
  intros H. revert w. induction before as [| l before IH]; intros w.
  - cbn [app Macro.run_lines]. unfold seq. by rewrite run_line_skipped.
  - cbn [app Macro.run_lines]. unfold seq.
    destruct (run_line l w) as [[[] | e] w']; [apply IH | done].
Qed.


(** C9. [load_macro_file] on a path that names no regular file returns
    without raising and leaves the world, and so the active log, as it
    was. *)
Theorem load_of_missing_file_is_noop (macro_path : str) (w : world) :
  is_regular_file macro_path w = false ->
  load_macro_file macro_path w = (Ok tt, w).
Proof.
  intros H. unfold Macro.load_macro_file, _load_macro_exists. by rewrite H.
Qed.

(** Whenever the waiter returns, the flag is down. *)
Lemma wait_returns_reset (schedule : list (world -> world)) (w w' : world) :
  wait_for_finish schedule w = Some w' -> get_macro_finished w' = false.
Proof.
  unfold Macro.wait_for_finish.
  destruct (wait_loop schedule w) as [[schedule' w1] |]; [| discriminate].
  by intros [= <-].
Qed.

(** The waiter returns as soon as the loop condition fails. *)
Lemma wait_returns_when_done (schedule : list (world -> world)) (w : world) :
  get_macro_finished w = true \/ macro_exists w = false ->
  exists w', wait_for_finish schedule w = Some w'.
Proof.
  intros H. unfold Macro.wait_for_finish.
  assert (wait_loop schedule w = Some (schedule, w)) as ->.
  { destruct schedule; simpl; destruct H as [-> | ->];
      rewrite ?andb_false_r; reflexivity. }
  eauto.
Qed.

(** One more round of the loop. *)
Lemma wait_polls_again (other : world -> world)
    (schedule : list (world -> world)) (w : world) :
  get_macro_finished w = false -> macro_exists w = true ->
  wait_for_finish (other :: schedule) w
  = wait_for_finish schedule (other (emit (Sleep 0.3) w)).
Proof.
  intros Hf He. unfold Macro.wait_for_finish.
  cbn [Macro.wait_loop]. by rewrite Hf, He.
Qed.

(** The waiter returns once the loop condition fails after some sleep. *)
Lemma wait_returns_eventually (n : nat) (schedule : list (world -> world))
    (w : world) :
  (n <= length schedule)%nat ->
  get_macro_finished (after_sleeps n schedule w) = true
  \/ macro_exists (after_sleeps n schedule w) = false ->
  exists w', wait_for_finish schedule w = Some w'.
Proof.
  revert schedule w. induction n as [| n IH]; intros schedule w Hlen Hdone.
  - by apply wait_returns_when_done.
  - destruct schedule as [| other schedule]; [cbn in Hlen; lia |].
    destruct (get_macro_finished w) eqn:Hf;
      [apply wait_returns_when_done; by left |].
    destruct (macro_exists w) eqn:He;
      [| apply wait_returns_when_done; by right].
    rewrite wait_polls_again by done.
    apply IH; [cbn in Hlen; lia | exact Hdone].
Qed.

(** C10. [wait_for_finish] lowers the finished flag before it returns:
    whatever the other thread did during the sleeps, a wait that returns
    leaves [get_macro_finished] false; and the wait does return, with the
    flag false, as soon as after some sleep playback has signalled
    completion or the log file is gone. *)
Theorem wait_for_finish_resets_flag (schedule : list (world -> world))
    (w : world) :
  (forall w', wait_for_finish schedule w = Some w' ->
              get_macro_finished w' = false)
  /\ (forall n,
        (n <= length schedule)%nat ->
        get_macro_finished (after_sleeps n schedule w) = true
        \/ macro_exists (after_sleeps n schedule w) = false ->
        exists w', wait_for_finish schedule w = Some w'
                   /\ get_macro_finished w' = false).
Proof.
  split.
  - intros w'. apply wait_returns_reset.
  - intros n Hlen Hdone.
    destruct (wait_returns_eventually n schedule w Hlen Hdone) as [w' Hw'].
    exists w'. split; [done |]. by apply (wait_returns_reset schedule w).
Qed.

End MacroFacts.

(** ** Recording from the window *)

Section GuiFacts.

Import Macro Gui Props.

Variable _macro_file : str.
Variable sleep_valid : float -> bool.

Local Abbreviation click := (click _macro_file true sleep_valid).
Local Abbreviation _on_send_key := (_on_send_key _macro_file true).
Local Abbreviation log_text := (log_text _macro_file).

(** Appending to the log, wherever it is not a directory. *)
Lemma append_file_log (data : str) (w : world) :
  fs w !! _macro_file <> Some Dir ->
  exists w',
    append_file _macro_file data w = (Ok tt, w')
    /\ log_text w' = log_text w ++ data
    /\ events w' = events w
    /\ _macro_finished w' = _macro_finished w.
Proof.
  intros H. unfold append_file, Props.log_text.
  destruct (fs w !! _macro_file) as [[content |] |] eqn:E; [| done |];
    eexists; (split; [reflexivity |]); simpl;
    rewrite lookup_insert_eq; by repeat split.
Qed.

Lemma plain_action_name (a : pointer_action) :
  forallb plain (action_name a) = true.
Proof. by destruct a. Qed.

Lemma plain_pointer_fields (x y : Z) (a : pointer_action) :
  forallb plain (lit "m," ++ str_of_Z x ++ lit "," ++ str_of_Z y ++ lit ","
                 ++ action_name a) = true.
Proof.
  rewrite !forallb_app, !plain_str_of_Z, plain_action_name. reflexivity.
Qed.

Lemma pointer_line_fields (x y : Z) (name : str) :
  pointer_line x y name
  = (lit "m," ++ str_of_Z x ++ lit "," ++ str_of_Z y ++ lit "," ++ name)
    ++ [LF].
Proof. unfold pointer_line. by rewrite <- !app_assoc. Qed.

(** C6. While the window is armed, a pointer action appends to the log the
    delay line and then the pointer line, and nothing else happens: no
    event is injected. Read back, the appended text is exactly these two
    lines; for a left click at (100, 200) they are [c,delay,0.9] and
    [m,100,200,b1c]. *)
Theorem armed_click_appends_two_lines (a : pointer_action) (x y : Z)
    (g : window) (w : world) :
  _save_to_macro g = true -> _macro g = true ->
  fs w !! _macro_file <> Some Dir ->
  exists w',
    click a x y g w = (Ok (_cancel g), w')
    /\ log_text w' = log_text w
                     ++ delay_line ++ pointer_line x y (action_name a)
    /\ readlines (delay_line ++ pointer_line x y (action_name a))
       = [delay_line; pointer_line x y (action_name a)]
    /\ events w' = events w
    /\ delay_line = lit "c,delay,0.9" ++ [LF]
    /\ pointer_line 100 200 (action_name LeftClick)
       = lit "m,100,200,b1c" ++ [LF].
Proof.
  intros Harmed Hmacro Hdir.
  destruct (append_file_log
              (delay_line ++ pointer_line x y (action_name a)) w Hdir)
    as (w' & Happ & Hlog & Hev & _).
  exists w'. split; [| split; [| split; [| split; [| split]]]].
  - unfold Gui.click, _thread_do_click, write_mouse_to_macro, seq.
    rewrite Harmed, Hmacro. cbn [negb andb].
    unfold delay_line, pointer_line in Happ. by rewrite Happ.
  - by rewrite Hlog.
  - rewrite pointer_line_fields. unfold delay_line.
    apply readlines_two; [reflexivity | apply plain_pointer_fields].
  - done.
  - reflexivity.
  - reflexivity.
Qed.

(** The same for "Route To", recorded with the action [None]. *)
Lemma armed_route_appends_two_lines (x y : Z) (delay : float) (g : window)
    (w : world) :
  _save_to_macro g = true -> _macro g = true ->
  fs w !! _macro_file <> Some Dir ->
  exists w',
    _thread_route_to _macro_file true sleep_valid x y delay g w
    = (Ok (_cancel g), w')
    /\ log_text w' = log_text w
                     ++ delay_line ++ pointer_line x y (lit "None")
    /\ events w' = events w.
Proof.
  intros Harmed Hmacro Hdir.
  destruct (append_file_log (delay_line ++ pointer_line x y (lit "None"))
              w Hdir) as (w' & Happ & Hlog & Hev & _).
  exists w'. split; [| by split].
  unfold _thread_route_to, write_mouse_to_macro, seq.
  rewrite Harmed, Hmacro. cbn [negb andb].
  unfold delay_line, pointer_line in Happ. by rewrite Happ.
Qed.

Lemma on_send_key_f4 (e : key_event) (g : window) (w : world) :
  is_f4_press e = true ->
  _on_send_key e g w
  = (Ok (true, set_overlay false g), emit DeregisterKeystrokeListener w).
Proof.
  unfold is_f4_press, Gui._on_send_key.
  destruct (type e); [| discriminate | discriminate].
  by intros ->.
Qed.

Lemma on_send_key_writes (e : key_event) (g : window) (w : world) :
  is_f4_press e = false ->
  _on_send_key e g w
  = if _macro g then
      match write_text _macro_file (key_line e) w with
      | (Ok _, w') => (Ok (true, g), w')
      | (Raise err, w') => (Raise err, w')
      end
    else (Ok (true, g), w).
Proof.
  unfold is_f4_press, Gui._on_send_key, key_line, phase.
  destruct (type e); [intros -> | intros _ | intros _];
    destruct (_macro g); reflexivity.
Qed.

(** The line of a keystroke is of ASCII when its event string is. *)
Lemma ascii_key_line (e : key_event) :
  forallb is_ascii (key_line e) = forallb is_ascii (event_string e).
Proof.
  unfold key_line. rewrite !forallb_app, ascii_str_of_Z.
  change (forallb is_ascii (lit "k,0,")) with true.
  change (forallb is_ascii (lit ",")) with true.
  change (forallb is_ascii [LF]) with true.
  by rewrite !andb_true_r.
Qed.

Lemma on_send_key_other (e : key_event) (g : window) (w : world) :
  is_f4_press e = false ->
  forallb is_ascii (event_string e) = true ->
  _on_send_key e g w
  = if _macro g then
      match append_file _macro_file (key_line e) w with
      | (Ok _, w') => (Ok (true, g), w')
      | (Raise err, w') => (Raise err, w')
      end
    else (Ok (true, g), w).
Proof.
  intros Hf4 Hascii. rewrite on_send_key_writes by assumption.
  rewrite write_text_ascii; [done |]. by rewrite ascii_key_line.
Qed.

(** With a manager, a keystroke whose event string has a character
    outside ASCII is refused by the text layer of the log: the listener
    raises and no line is appended. *)
Lemma on_send_key_refused (e : key_event) (g : window) (w : world) :
  is_f4_press e = false -> _macro g = true ->
  forallb is_ascii (event_string e) = false ->
  exists err w',
    _on_send_key e g w = (Raise err, w')
    /\ log_text w' = log_text w
    /\ events w' = events w.
Proof.
  intros Hf4 Hmacro Hascii. rewrite on_send_key_writes by assumption.
  rewrite Hmacro. rewrite <- ascii_key_line in Hascii.
  destruct (write_text_refused _macro_file (key_line e) w Hascii)
    as (err & w' & -> & Hlog & Hev).
  by exists err, w'.
Qed.

Lemma injected_keys_emit_deregister (w : world) :
  filter (fun ev => injects_key ev = true)
         (events (emit DeregisterKeystrokeListener w))
  = filter (fun ev => injects_key ev = true) (events w).
Proof.
  unfold emit. cbn [events]. rewrite filter_app.
  rewrite filter_cons_False by (cbn; discriminate).
  by rewrite filter_nil, app_nil_r.
Qed.

(** C3, as the code has it. In send-key mode, with [pyatspi] present and
    for a keystroke whose event string is of ASCII characters, which the
    log file can hold: pressing F4 deregisters the listener and leaves the
    mode, whether the window is armed or not; every other keystroke is
    appended to the log as a key line when the window has a manager, and
    dropped when it has none, again whether the window is armed or not.
    No keystroke is forwarded to the input-injection interface. *)
Theorem send_key_records_whether_armed_or_not (e : key_event) (g : window)
    (w : world) (armed : bool) :
  fs w !! _macro_file <> Some Dir ->
  forallb is_ascii (event_string e) = true ->
  exists w',
    _on_send_key e (set_armed armed g) w
    = (Ok (true,
           if is_f4_press e then set_overlay false (set_armed armed g)
           else set_armed armed g), w')
    /\ filter (fun ev => injects_key ev = true) (events w')
       = filter (fun ev => injects_key ev = true) (events w)
    /\ (if is_f4_press e then
          w' = emit DeregisterKeystrokeListener w
        else if _macro g then
          log_text w' = log_text w ++ key_line e /\ events w' = events w
        else w' = w).
Proof.
  intros Hdir Hascii. destruct (is_f4_press e) eqn:Ef.
  - exists (emit DeregisterKeystrokeListener w).
    rewrite on_send_key_f4 by assumption.
    split; [reflexivity |]. split; [| reflexivity].
    apply injected_keys_emit_deregister.
  - rewrite on_send_key_other by assumption.
    change (_macro (set_armed armed g)) with (_macro g).
    destruct (_macro g).
    + destruct (append_file_log (key_line e) w Hdir)
        as (w1 & Happ & Hlog & Hev & _).
      exists w1. rewrite Happ. split; [reflexivity |].
      split; [by rewrite Hev | by split].
    + exists w. by repeat split.
Qed.

End GuiFacts.

(** ** Colour naming *)

Section ColorFacts.

Import Color Props.

Variable scipy_available : bool.
Variable webcolors_available : bool.
Variable image : Type.
Variable crop_getdata : image -> Z * Z * Z * Z -> result (list pixel).
Variable color_names : list str.
Variable kdt_query : pixel -> result Z.

Local Abbreviation _rgb_to_name := (_rgb_to_name color_names kdt_query).
Local Abbreviation count_names := (count_names color_names kdt_query).
Local Abbreviation try_body :=
  (try_body image crop_getdata color_names kdt_query).
Local Abbreviation get_color_string :=
  (get_color_string scipy_available webcolors_available image crop_getdata
     color_names kdt_query).

Lemma except_unknown_ok (r : result str * gmap pixel str) :
  exists s, fst (except_unknown r) = Ok s.
Proof. destruct r as [[s | e] c]; simpl; eauto. Qed.

(** C7. [get_color_string] never raises: for every box, index, image and
    memo table it returns a string. The string is "unknown" whenever the
    maximum colour count is below 1, whenever the body of the [try] raises,
    whenever the box or the image is missing, and whenever a dependency is
    missing. *)
Theorem color_string_never_raises (d : detector) (box : option box_dict)
    (i : Z) (img : option image) (c : gmap pixel str) :
  (exists s, fst (get_color_string d box i img c) = Ok s)
  /\ (_max_colors d < 1 ->
      fst (get_color_string d box i img c) = Ok unknown)
  /\ (forall b im e c',
        box = Some b -> img = Some im ->
        try_body d b i im c = (Raise e, c') ->
        fst (get_color_string d box i img c) = Ok unknown)
  /\ (box = None \/ box = Some [] \/ img = None ->
      fst (get_color_string d box i img c) = Ok unknown)
  /\ (scipy_available = false \/ webcolors_available = false ->
      fst (get_color_string d box i img c) = Ok unknown).
Proof.
  unfold Color.get_color_string.
  destruct (_enabled d); cbn [negb];
    [| repeat split; eauto].
  destruct scipy_available; cbn [negb];
    [| repeat split; eauto].
  destruct webcolors_available; cbn [negb];
    [| repeat split; eauto].
  destruct (Z.ltb_spec (_max_colors d) 1) as [Hlt | Hge];
    [repeat split; eauto |].
  destruct img as [im |], box as [[| entry entries] |];
    try (repeat split; eauto; fail).
  split; [apply except_unknown_ok |].
  split; [lia |]. split.
  - intros b im' e c' [= <-] [= <-] H. by rewrite H.
  - split; [intros [H | [H | H]]; discriminate
           | intros [H | H]; discriminate].
Qed.

(** *** The tallies *)

Lemma total_bump {K} `{EqDecision K} (key : K) (n : Z) (d : list (K * Z)) :
  foldr (fun e acc => snd e + acc) 0 (bump key n d)
  = foldr (fun e acc => snd e + acc) 0 d + n.
Proof.
  induction d as [| [k v] d IH]; simpl; [lia |].
  destruct (decide (k = key)); simpl; lia.
Qed.

Lemma keys_bump {K} `{EqDecision K} (key : K) (n : Z) (d : list (K * Z)) :
  (bump key n d).*1 = if decide (key ∈ d.*1) then d.*1 else d.*1 ++ [key].
Proof.
  induction d as [| [k v] d IH].
  - cbn [bump]. rewrite fmap_cons, fmap_nil.
    destruct (decide (key ∈ [])) as [Hin | _]; [| done].
    by apply elem_of_nil in Hin.
  - cbn [bump]. destruct (decide (k = key)) as [-> | Hne];
      rewrite !fmap_cons; cbn [fst].
    + destruct (decide (key ∈ key :: d.*1)) as [_ | Hout]; [done |].
      exfalso. apply Hout. apply elem_of_cons. by left.
    + rewrite IH.
      destruct (decide (key ∈ d.*1)) as [Hin | Hout];
        destruct (decide (key ∈ k :: d.*1)) as [Hin' | Hout']; try done.
      * exfalso. apply Hout'. apply elem_of_cons. by right.
      * apply elem_of_cons in Hin' as [-> | Hin']; done.
Qed.

Lemma NoDup_bump {K} `{EqDecision K} (key : K) (n : Z) (d : list (K * Z)) :
  NoDup d.*1 -> NoDup (bump key n d).*1.
Proof.
  intros Hd. rewrite keys_bump. destruct (decide (key ∈ d.*1)); [done |].
  apply NoDup_app. split; [done |]. split; [| apply NoDup_singleton].
  intros x Hx ->%list_elem_of_singleton. done.
Qed.

Lemma total_count_colors (pixels : list pixel) :
  total_count (count_colors pixels) = Z.of_nat (length pixels).
Proof.
  unfold count_colors, total_count.
  enough (forall acc,
            foldr (fun e a => snd e + a) 0
                  (foldl (fun d px => bump px 1 d) acc pixels)
            = foldr (fun e a => snd e + a) 0 acc + Z.of_nat (length pixels))
    as H by (rewrite H; simpl; lia).
  induction pixels as [| px pixels IH]; intros acc; simpl; [lia |].
  rewrite IH, total_bump. lia.
Qed.

Lemma count_names_spec (c c' : gmap pixel str) (by_color : list (pixel * Z))
    (acc by_color_name : list (str * Z)) :
  count_names c by_color acc = (Ok by_color_name, c') ->
  NoDup acc.*1 ->
  NoDup by_color_name.*1
  /\ total_count by_color_name = total_count acc + total_count by_color.
Proof.
  revert c acc. induction by_color as [| [color count] rest IH];
    intros c acc; simpl.
  - intros [= <- <-] Hd. split; [done |]. unfold total_count. simpl. lia.
  - destruct (_rgb_to_name c color) as [[name | e] c1]; [| discriminate].
    intros Hrest Hd.
    destruct (IH _ _ Hrest (NoDup_bump name count acc Hd)) as [Hnd Htot].
    split; [done |]. rewrite Htot. unfold total_count.
    rewrite total_bump. simpl. lia.
Qed.

(** *** The order of the report *)

Lemma insert_desc_perm {K} (x : K * Z) (l : list (K * Z)) :
  insert_desc x l ≡ₚ x :: l.
Proof.
  induction l as [| y l IH]; simpl; [done |].
  destruct (snd x <? snd y); [| done].
  rewrite IH. apply Permutation_swap.
Qed.

Lemma sorted_desc_perm {K} (l : list (K * Z)) : sorted_desc l ≡ₚ l.
Proof.
  induction l as [| x l IH]; simpl; [done |].
  by rewrite insert_desc_perm, IH.
Qed.

Lemma get_elem_of {K} `{EqDecision K} (k : K) (v : Z) (d : list (K * Z)) :
  NoDup d.*1 -> (k, v) ∈ d -> get k d = v.
Proof.
  induction d as [| [k' v'] d IH]; simpl.
  - intros _ H. by apply elem_of_nil in H.
  - intros [Hout Hd]%NoDup_cons [[= -> ->] | Hin]%elem_of_cons.
    + by rewrite decide_True.
    + rewrite decide_False; [by apply IH |].
      intros ->. apply Hout. apply list_elem_of_fmap. by exists (k, v).
Qed.

(** *** The report *)

Lemma describe_reported (by_color_name pairs : list (str * Z)) (area : Z)
    (color_str s : str) :
  area <> 0 ->
  (forall k v, (k, v) ∈ pairs -> get k by_color_name = v) ->
  describe by_color_name area pairs.*1 color_str = Ok s ->
  s = color_str ++ concat (map entry_text (omap (report_entry area) pairs)).
Proof.
  intros Harea. revert color_str.
  induction pairs as [| [k v] pairs IH]; intros color_str Hget.
  - intros [= <-]. by rewrite app_nil_r.
  - rewrite fmap_cons. cbn [fst describe omap list_omap].
    rewrite (Hget k v) by (apply elem_of_cons; by left).
    apply Z.eqb_neq in Harea as Hne. rewrite Hne. cbn [negb].
    unfold report_entry at 1. cbn [fst snd].
    assert (forall k' v', (k', v') ∈ pairs -> get k' by_color_name = v')
      as Hget' by (intros k' v' H; apply Hget, elem_of_cons; by right).
    destruct (percent_of v area) as [p |]; [| discriminate].
    destruct (0 <? p).
    + intros H. apply IH in H; [| done]. rewrite H.
      cbn [map concat]. unfold entry_text at 2. cbn [fst snd].
      by rewrite <- !app_assoc.
    + intros H. by apply IH in H.
Qed.

Lemma take_min_length {A} (n : nat) (l : list A) :
  take (n `min` length l) l = take n l.
Proof. by rewrite <- take_take, (take_ge l (length l)). Qed.

Lemma truthy_report (l : list (str * Z)) :
  (if truthy (concat (map entry_text l))
   then drop_last2 (concat (map entry_text l)) else unknown) = render l.
Proof.
  destruct l as [| [k p] l]; [reflexivity |].
  cbn [map concat render]. unfold entry_text at 1. cbn [fst snd].
  by destruct k.
Qed.

Lemma reported_entries (d : detector) (by_color_name : list (str * Z))
    (area : Z) :
  NoDup by_color_name.*1 ->
  Forall (fun e => 0 < snd e
                   /\ percent_of (get (fst e) by_color_name) area
                      = Some (snd e))
         (reported d by_color_name area).
Proof.
  intros Hnd. apply Forall_forall. intros [k p] Hin.
  apply list_elem_of_omap in Hin as ([k' v] & Hin & Hentry).
  apply elem_of_take in Hin as (j & Hin & _).
  apply list_elem_of_lookup_2 in Hin.
  rewrite sorted_desc_perm in Hin.
  unfold report_entry in Hentry. cbn [fst snd] in *.
  destruct (percent_of v area) as [q |] eqn:Hq; [| discriminate].
  destruct (Z.ltb_spec 0 q); [| discriminate].
  injection Hentry as -> ->.
  by rewrite (get_elem_of k v by_color_name Hnd Hin).
Qed.

(** C5, as the code has it. Whenever the classification of a box succeeds,
    the counts of all the colour names add up to the number of pixels of
    the box; and for a box of non-zero area the returned string is the
    report of the first [max_colors] names by count, each with
    [round(count / (width * height) * 100)], where a name whose percentage
    is not positive is left out and the other percentages are still taken
    against the whole area. Every percentage shown is at least 1; their sum
    is not bounded by 100. *)
Theorem percentages_are_of_the_whole_box (d : detector) (box : box_dict)
    (i : Z) (img : image) (c c' : gmap pixel str) (s : str) :
  try_body d box i img c = (Ok s, c') ->
  exists width height left top pixels by_color_name,
    field box "width" i = Ok width
    /\ field box "height" i = Ok height
    /\ crop_getdata img (left, top, left + width, top + height) = Ok pixels
    /\ count_names c (count_colors pixels) [] = (Ok by_color_name, c')
    /\ total_count by_color_name = Z.of_nat (length pixels)
    /\ (width * height <> 0 ->
        s = render (reported d by_color_name (width * height))
        /\ Forall (fun e =>
                     0 < snd e
                     /\ percent_of (get (fst e) by_color_name)
                                   (width * height) = Some (snd e))
                  (reported d by_color_name (width * height))).
Proof.
  unfold Color.try_body.
  destruct (field box "width" i) as [width |] eqn:Hw; [| discriminate].
  destruct (field box "height" i) as [height |] eqn:Hh; [| discriminate].
  destruct (field box "left" i) as [left |] eqn:Hl; [| discriminate].
  destruct (field box "top" i) as [top |] eqn:Ht; [| discriminate].
  cbn [bind].
  destruct (crop_getdata img (left, top, left + width, top + height))
    as [pixels |] eqn:Hcrop; [| discriminate].
  cbn [bind].
  destruct (count_names c (count_colors pixels) [])
    as [[by_color_name | e] c1] eqn:Hnames; [| discriminate].
  intros H. injection H as H <-.
  destruct (count_names_spec _ _ _ _ _ Hnames) as [Hnd Htotal];
    [apply NoDup_nil_2 |].
  exists width, height, left, top, pixels, by_color_name.
  repeat (split; [done |]).
  split.
  { rewrite Htotal, total_count_colors. unfold total_count. simpl. lia. }
  intros Harea. split; [| by apply reported_entries].
  destruct (describe _ _ _ _) as [color_str |] eqn:Hdesc; [| discriminate].
  cbn [bind] in H. injection H as <-.
  rewrite Z2Nat.inj_min, Nat2Z.id, length_fmap in Hdesc.
  rewrite <- (length_fmap fst), take_min_length, <- fmap_take in Hdesc.
  apply describe_reported in Hdesc; [| done |].
  - cbn [app] in Hdesc. subst color_str. apply truthy_report.
  - intros k v Hin. apply get_elem_of; [done |].
    apply elem_of_take in Hin as (j & Hin & _).
    apply list_elem_of_lookup_2 in Hin.
    by rewrite sorted_desc_perm in Hin.
Qed.

End ColorFacts.

(** ** The properties at concrete inputs *)

Section Instances.

Import Macro Gui Color Props Fixtures.

(** C3, the statement of the specification fails. The window is not armed
    and the key [a] is pressed in send-key mode: nothing is forwarded to the
    input-injection interface, and the keystroke is appended to the log. *)
Lemma unarmed_keystroke_is_recorded_not_forwarded :
  _save_to_macro (a_window false) = false
  /\ is_f4_press key_a_pressed = false
  /\ fst (_on_send_key macro_file true key_a_pressed (a_window false)
            without_log)
     = Ok (true, a_window false)
  /\ events (snd (_on_send_key macro_file true key_a_pressed
                    (a_window false) without_log)) = []
  /\ log_text macro_file
       (snd (_on_send_key macro_file true key_a_pressed (a_window false)
               without_log))
     = lit "k,0,a,0" ++ [LF].
Proof. repeat split; vm_compute; reflexivity. Qed.

Lemma send_key_records_witness :
  fs without_log !! macro_file <> Some Dir
  /\ forallb is_ascii (event_string key_a_pressed) = true
  /\ exists w',
       _on_send_key macro_file true key_a_pressed
         (set_armed true (a_window false)) without_log
       = (Ok (true, set_armed true (a_window false)), w')
       /\ log_text macro_file w'
          = log_text macro_file without_log ++ key_line key_a_pressed
       /\ events w' = events without_log.
Proof.
  assert (fs without_log !! macro_file <> Some Dir) as Hdir
    by (unfold without_log; cbn [fs]; rewrite lookup_empty; discriminate).
  split; [exact Hdir |]. split; [reflexivity |].
  destruct (send_key_records_whether_armed_or_not macro_file key_a_pressed
              (a_window false) without_log true Hdir eq_refl)
    as (w' & Hrun & _ & Hlog & Hev).
  exists w'. split; [exact Hrun |]. split; [exact Hlog | exact Hev].
Defined.

(** C4, the statement of the specification fails. The log holds the line
    [c] and then a pointer line: playback raises [IndexError] at the first
    line, the pointer event of the second is never injected and the finished
    flag stays false. The pointer line alone plays back. *)
Lemma truncated_line_aborts_playback :
  fst (run_macro macro_file true decimal_int delay_float any_sleep no_keys
         (with_log (lit "c" ++ [LF] ++ lit "m,50,60,b1c" ++ [LF])))
  = Raise IndexError
  /\ events (snd (run_macro macro_file true decimal_int delay_float
                    any_sleep no_keys
                    (with_log (lit "c" ++ [LF] ++ lit "m,50,60,b1c"
                               ++ [LF])))) = []
  /\ get_macro_finished
       (snd (run_macro macro_file true decimal_int delay_float any_sleep
               no_keys
               (with_log (lit "c" ++ [LF] ++ lit "m,50,60,b1c" ++ [LF]))))
     = false
  /\ events (snd (run_macro macro_file true decimal_int delay_float
                    any_sleep no_keys
                    (with_log (lit "m,50,60,b1c" ++ [LF]))))
     = [GenerateMouseEvent 50 60 (lit "abs");
        GenerateMouseEvent 50 60 (lit "b1c")].
Proof. repeat split; vm_compute; reflexivity. Qed.

Lemma skipped_line_witness :
  skipped decimal_int (lit "k,0,,2" ++ [LF]) = true
  /\ run_lines true decimal_int delay_float any_sleep no_keys
       ([lit "c,delay,0.9" ++ [LF]] ++ (lit "k,0,,2" ++ [LF])
        :: [lit "m,50,60,b1c" ++ [LF]]) without_log
     = run_lines true decimal_int delay_float any_sleep no_keys
         ([lit "c,delay,0.9" ++ [LF]] ++ [lit "m,50,60,b1c" ++ [LF]])
         without_log.
Proof.
  split; [vm_compute; reflexivity |].
  apply (skipped_line_changes_nothing true decimal_int delay_float
           any_sleep no_keys).
  vm_compute; reflexivity.
Defined.

(** C5, the statement of the specification fails. In a box of eight pixels,
    three red, three blue and two green, the three names are reported with
    38, 38 and 25 per cent: 101 in all. *)
Lemma rounded_percentages_exceed_100 :
  fst (get_color_string true true unit crop8 palette nearest three_colors
         (Some box8) 0 (Some tt) ∅)
  = Ok (lit "red: 38 %, blue: 38 %, lime: 25 %")
  /\ fst (count_names palette nearest ∅ (count_colors eight_pixels) [])
     = Ok names8
  /\ reported three_colors names8 (4 * 2)
     = [(lit "red", 38); (lit "blue", 38); (lit "lime", 25)]
  /\ total_count (reported three_colors names8 (4 * 2)) = 101
  /\ ~ total_count (reported three_colors names8 (4 * 2)) <= 100.
Proof.
  repeat split; try (vm_compute; reflexivity).
  vm_compute. intros H. by apply H.
Qed.

Lemma percentages_witness :
  exists c',
    try_body unit crop8 palette nearest three_colors box8 0 tt ∅
    = (Ok (lit "red: 38 %, blue: 38 %, lime: 25 %"), c')
    /\ exists width height left top pixels by_color_name,
         field box8 "width" 0 = Ok width
         /\ field box8 "height" 0 = Ok height
         /\ crop8 tt (left, top, left + width, top + height) = Ok pixels
         /\ count_names palette nearest ∅ (count_colors pixels) []
            = (Ok by_color_name, c')
         /\ total_count by_color_name = Z.of_nat (length pixels)
         /\ (width * height <> 0 ->
             lit "red: 38 %, blue: 38 %, lime: 25 %"
             = render (reported three_colors by_color_name (width * height))
             /\ Forall (fun e =>
                          0 < snd e
                          /\ percent_of (get (fst e) by_color_name)
                                        (width * height) = Some (snd e))
                       (reported three_colors by_color_name
                          (width * height))).
Proof.
  eexists. split; [vm_compute; reflexivity |].
  apply (percentages_are_of_the_whole_box unit crop8 palette nearest
           three_colors box8 0 tt ∅).
  vm_compute; reflexivity.
Defined.

Lemma armed_click_witness :
  _save_to_macro (a_window true) = true
  /\ _macro (a_window true) = true
  /\ fs without_log !! macro_file <> Some Dir
  /\ exists w',
       click macro_file true any_sleep LeftClick 100 200 (a_window true)
         without_log
       = (Ok (_cancel (a_window true)), w')
       /\ log_text macro_file w'
          = (lit "c,delay,0.9" ++ [LF]) ++ (lit "m,100,200,b1c" ++ [LF])
       /\ events w' = [].
Proof.
  assert (fs without_log !! macro_file <> Some Dir) as Hdir
    by (unfold without_log; cbn [fs]; rewrite lookup_empty; discriminate).
  split; [reflexivity |]. split; [reflexivity |]. split; [exact Hdir |].
  destruct (armed_click_appends_two_lines macro_file any_sleep LeftClick
              100 200 (a_window true) without_log eq_refl eq_refl Hdir)
    as (w' & Hrun & Hlog & _ & Hev & _ & _).
  exists w'. split; [exact Hrun |]. split; [exact Hlog | exact Hev].
Defined.

Lemma color_string_witness :
  _max_colors {| _max_colors := 0; _enabled := true |} < 1
  /\ fst (get_color_string true true unit crop8 palette nearest
            {| _max_colors := 0; _enabled := true |} (Some box8) 0
            (Some tt) ∅)
     = Ok unknown.
Proof.
  split; [reflexivity |].
  destruct (color_string_never_raises true true unit crop8 palette nearest
              {| _max_colors := 0; _enabled := true |} (Some box8) 0
              (Some tt) ∅) as (_ & Hmax & _).
  apply Hmax. reflexivity.
Defined.


Lemma load_of_missing_file_witness :
  is_regular_file (lit "/tmp/none.ocrm") (with_log (lit "c,delay,0.9"))
  = false
  /\ load_macro_file macro_file one_spelling (lit "/tmp/none.ocrm")
       (with_log (lit "c,delay,0.9"))
     = (Ok tt, with_log (lit "c,delay,0.9")).
Proof.
  assert (is_regular_file (lit "/tmp/none.ocrm")
            (with_log (lit "c,delay,0.9")) = false) as H
    by (vm_compute; reflexivity).
  split; [exact H |].
  exact (load_of_missing_file_is_noop macro_file one_spelling
           (lit "/tmp/none.ocrm") (with_log (lit "c,delay,0.9")) H).
Defined.

Lemma wait_for_finish_witness :
  (2 <= length finishes_second)%nat
  /\ get_macro_finished (after_sleeps 2 finishes_second (with_log [])) = true
  /\ exists w',
       wait_for_finish macro_file finishes_second (with_log []) = Some w'
       /\ get_macro_finished w' = false.
Proof.
  destruct (wait_for_finish_resets_flag macro_file finishes_second
              (with_log [])) as (_ & Hreturns).
  split; [vm_compute; lia |]. split; [vm_compute; reflexivity |].
  apply (Hreturns 2%nat); [vm_compute; lia |].
  left. vm_compute. reflexivity.
Defined.

(** The wait also ends, with the flag false, when the log is unloaded
    while playback has not finished. *)
Lemma wait_ends_when_log_is_unloaded :
  get_macro_finished (after_sleeps 1 unloads_first (with_log [])) = false
  /\ macro_exists macro_file (after_sleeps 1 unloads_first (with_log []))
     = false
  /\ (get_macro_finished
        <$> wait_for_finish macro_file unloads_first (with_log []))
     = Some false.
Proof. repeat split; vm_compute; reflexivity. Qed.

(** A recorded left click plays back as the settle delay, the move to the
    point and the click. *)
Lemma recorded_click_plays_back :
  events (snd (run_macro macro_file true decimal_int delay_float any_sleep
                 no_keys
                 (with_log (delay_line
                            ++ pointer_line 100 200 (lit "b1c")))))
  = [Sleep 0.9; GenerateMouseEvent 100 200 (lit "abs");
     GenerateMouseEvent 100 200 (lit "b1c")].
Proof. vm_compute. reflexivity. Qed.

End Instances.

(** * Further properties of the code *)

(** ** [ocr.py]: glyphs, separators and the word list *)

Section GlyphFacts.

Import Ocr Props Further.

Variable color_callback : option (ocr_word -> str).
Variable include_word_list : bool.

Local Abbreviation step := (step color_callback include_word_list).
Local Abbreviation _process_ocr_words :=
  (_process_ocr_words color_callback include_word_list).

Lemma step_blank (a : acc) (w : ocr_word) :
  blank_word w = true -> step a w = a.
Proof. unfold blank_word, Ocr.step. by intros ->. Qed.

Lemma process_nonempty (ws : list ocr_word) :
  ws <> [] ->
  _process_ocr_words ws
  = (a_text (fold_left step ws
               {| a_text := []; a_words := []; last_page := -1;
                  last_block := -1; last_par := -1; last_line := -1 |})
     ++ [LF],
     a_words (fold_left step ws
                {| a_text := []; a_words := []; last_page := -1;
                   last_block := -1; last_par := -1; last_line := -1 |})).
Proof. by destruct ws. Qed.

Lemma fold_step_blank (ws : list ocr_word) (a : acc) :
  forallb blank_word ws = true -> fold_left step ws a = a.
Proof.
  induction ws as [| w ws IH]; [done |].
  intros [Hw Hws]%andb_prop. cbn [fold_left].
  rewrite step_blank by done. by apply IH.
Qed.

(** X2. A glyph whose text is empty or white space only contributes
    nothing: as long as another glyph is left, the text and the word list
    are those of the table without it. *)
Theorem blank_glyph_is_passed_over (before after : list ocr_word)
    (w : ocr_word) :
  blank_word w = true -> before ++ after <> [] ->
  _process_ocr_words (before ++ w :: after)
  = _process_ocr_words (before ++ after).
Proof.
  intros Hw Hne.
  rewrite !process_nonempty by (done || by destruct before).
  rewrite !fold_left_app. cbn [fold_left]. by rewrite step_blank.
Qed.

(** X3. A table that holds glyphs but only blank ones gives the text of a
    single newline and no word; the cleanup turns it into the empty
    text, the text of a table without glyphs. *)
Theorem blank_table_gives_empty_text (ws : list ocr_word) :
  forallb blank_word ws = true ->
  _clean_text (fst (_process_ocr_words ws)) = []
  /\ snd (_process_ocr_words ws) = []
  /\ (ws <> [] -> fst (_process_ocr_words ws) = [LF]).
Proof.
  intros Hws. destruct ws as [| w ws]; [done |].
  rewrite process_nonempty by done. rewrite fold_step_blank by done.
  cbn [a_text a_words fst snd app]. repeat split.
Qed.

Lemma fold_step_texts (ws : list ocr_word) (a : acc) :
  include_word_list = true ->
  w_text <$> a_words (fold_left step ws a)
  = (w_text <$> a_words a)
    ++ (text <$> filter (fun w => blank_word w = false) ws).
Proof.
  intros Hlist. revert a. induction ws as [| w ws IH]; intros a.
  - cbn. by rewrite app_nil_r.
  - cbn [fold_left]. rewrite IH. destruct (blank_word w) eqn:Hw.
    + rewrite step_blank by done.
      by rewrite filter_cons_False by (rewrite Hw; discriminate).
    + rewrite filter_cons_True by done.
      unfold Ocr.step at 1. unfold blank_word in Hw. rewrite Hw, Hlist.
      cbn [a_words]. rewrite fmap_app, fmap_cons. cbn [w_text fmap].
      by rewrite <- app_assoc.
Qed.

Lemma fold_step_kinds (ws : list ocr_word) (a : acc) :
  Forall (fun e => w_kind e = lit "text") (a_words a) ->
  Forall (fun e => w_kind e = lit "text") (a_words (fold_left step ws a)).
Proof.
  revert a. induction ws as [| w ws IH]; intros a Ha; [done |].
  cbn [fold_left]. apply IH. unfold Ocr.step.
  destruct (_ || _); [done |]. cbn [a_words].
  destruct include_word_list; [| done].
  apply Forall_app. split; [done |]. by apply Forall_singleton.
Qed.

Lemma fold_step_no_words (ws : list ocr_word) (a : acc) :
  include_word_list = false ->
  a_words (fold_left step ws a) = a_words a.
Proof.
  intros Hlist. revert a. induction ws as [| w ws IH]; intros a; [done |].
  cbn [fold_left]. rewrite IH. unfold Ocr.step.
  destruct (_ || _); [done |]. cbn [a_words]. by rewrite Hlist.
Qed.

(** X4. The word list follows the glyphs: with the word list asked for, it
    has one entry for each glyph that is not blank, in the order of the
    table and with the glyph's text, and every entry is of the kind
    [text]; without it, the list is empty. *)
Theorem word_list_follows_the_glyphs (ws : list ocr_word) :
  (include_word_list = true ->
   w_text <$> snd (_process_ocr_words ws)
   = text <$> filter (fun w => blank_word w = false) ws)
  /\ (include_word_list = false -> snd (_process_ocr_words ws) = [])
  /\ Forall (fun e => w_kind e = lit "text") (snd (_process_ocr_words ws)).
Proof.
  destruct ws as [| w ws]; [by repeat split |].
  rewrite process_nonempty by done. cbn [snd]. repeat split.
  - intros Hlist. by rewrite fold_step_texts.
  - intros Hlist. by rewrite fold_step_no_words.
  - by apply fold_step_kinds.
Qed.

(** *** Separators *)

Lemma count_char_app (c : char) (s t : str) :
  count_char c (s ++ t) = (count_char c s + count_char c t)%nat.
Proof. unfold count_char. by rewrite filter_app, length_app. Qed.

Lemma count_char_solid (c : char) (word : str) :
  isspace c = true -> solid word = true -> count_char c word = 0%nat.
Proof.
  intros Hc Hword. unfold solid in Hword.
  apply andb_prop in Hword as [_ Hword]. unfold count_char.
  induction word as [| d word IH]; [done |].
  cbn [forallb] in Hword. apply andb_prop in Hword as [Hd Hword].
  apply negb_true_iff in Hd.
  rewrite filter_cons_False by (intros ->; congruence). by apply IH.
Qed.

Lemma step_engine_word (a : acc) (prev w : ocr_word) :
  tracks a prev -> last_line a <> -1 -> engine_word w = true ->
  a_text (step a w)
  = a_text a ++ (if same_line prev w then [SPACE] else [LF]) ++ text w
  /\ tracks (step a w) w /\ last_line (step a w) <> -1.
Proof.
  intros (Hp & Hb & Hr & Hl) Hlast Hw. unfold engine_word in Hw.
  apply andb_prop in Hw as [Hword Hline].
  apply negb_true_iff, Z.eqb_neq in Hline.
  unfold Ocr.step. rewrite (solid_not_skipped _ Hword).
  apply Z.eqb_neq in Hlast as Hlast'. rewrite Hlast'. cbn [negb].
  cbn [a_text last_line]. split; [| by repeat split].
  unfold same_line. rewrite Hp, Hb, Hr, Hl.
  by destruct (page_num prev =? page_num w),
    (block_num prev =? block_num w), (par_num prev =? par_num w),
    (line_num prev =? line_num w).
Qed.

Lemma fold_step_separators (ws : list ocr_word) (a : acc)
    (prev : ocr_word) :
  tracks a prev -> last_line a <> -1 -> forallb engine_word ws = true ->
  count_char LF (a_text (fold_left step ws a))
  = (count_char LF (a_text a) + breaks prev ws)%nat
  /\ (count_char SPACE (a_text (fold_left step ws a)) + breaks prev ws
      = count_char SPACE (a_text a) + length ws)%nat.
Proof.
  revert a prev. induction ws as [| w ws IH]; intros a prev Ha Hlast Hws.
  - cbn. lia.
  - apply andb_prop in Hws as [Hw Hws]. cbn [fold_left breaks length].
    destruct (step_engine_word a prev w Ha Hlast Hw) as (Htext & Hw' & Hl').
    destruct (IH _ _ Hw' Hl' Hws) as [Hlf Hsp].
    rewrite Hlf, Htext. rewrite !count_char_app.
    unfold engine_word in Hw. apply andb_prop in Hw as [Hword _].
    rewrite (count_char_solid LF _ eq_refl Hword).
    assert (count_char SPACE (a_text (fold_left step ws (step a w)))
            + breaks w ws
            = count_char SPACE (a_text a)
              + count_char SPACE (if same_line prev w then [SPACE] else [LF])
              + length ws)%nat as Hsp'.
    { rewrite Hsp, Htext, !count_char_app.
      rewrite (count_char_solid SPACE _ eq_refl Hword). lia. }
    destruct (same_line prev w).
    + change (count_char LF [SPACE]) with 0%nat.
      change (count_char SPACE [SPACE]) with 1%nat in Hsp'. lia.
    + change (count_char LF [LF]) with 1%nat.
      change (count_char SPACE [LF]) with 0%nat in Hsp'. lia.
Qed.

(** X5. Between neighbouring glyphs stands exactly one separator: for
    glyphs as the engine returns them, the text built for an image has
    one newline for each pair of neighbours that are not of the same line,
    page, block and paragraph, and one more at its end; the other pairs
    are separated by one space each. *)
Theorem one_separator_between_glyphs (w : ocr_word) (ws : list ocr_word) :
  forallb engine_word (w :: ws) = true ->
  count_char LF (fst (_process_ocr_words (w :: ws)))
  = (breaks w ws + 1)%nat
  /\ (count_char SPACE (fst (_process_ocr_words (w :: ws))) + breaks w ws
      = length ws)%nat.
Proof.
  intros Hws. cbn [forallb] in Hws. apply andb_prop in Hws as [Hw Hws].
  rewrite process_nonempty by done. cbn [fst fold_left].
  assert (a_text (step {| a_text := []; a_words := []; last_page := -1;
                          last_block := -1; last_par := -1;
                          last_line := -1 |} w) = text w
          /\ tracks (step {| a_text := []; a_words := []; last_page := -1;
                             last_block := -1; last_par := -1;
                             last_line := -1 |} w) w
          /\ last_line (step {| a_text := []; a_words := [];
                                last_page := -1; last_block := -1;
                                last_par := -1; last_line := -1 |} w)
             <> -1) as (Htext & Htracks & Hlast).
  { unfold engine_word in Hw. apply andb_prop in Hw as [Hword Hline].
    apply negb_true_iff, Z.eqb_neq in Hline.
    unfold Ocr.step. rewrite (solid_not_skipped _ Hword).
    cbn. by repeat split. }
  destruct (fold_step_separators ws _ w Htracks Hlast Hws) as [Hlf Hsp].
  rewrite !count_char_app, Hlf, Htext.
  unfold engine_word in Hw. apply andb_prop in Hw as [Hword _].
  rewrite (count_char_solid LF _ eq_refl Hword).
  rewrite Htext, (count_char_solid SPACE _ eq_refl Hword) in Hsp.
  change (count_char LF [LF]) with 1%nat.
  change (count_char SPACE [LF]) with 0%nat. lia.
Qed.

End GlyphFacts.

(** ** [ocr.py]: the cleanup on any text *)

Section CleanupFacts.

Import Ocr Props Further.

Lemma double_blank_cons (c : char) (s : str) :
  double_blank (c :: s)
  = (cls_hspace c && starts_blank s) || double_blank s.
Proof. destruct s; [| done]. cbn. by rewrite andb_false_r. Qed.

Lemma double_blank_prefix (t u : str) :
  double_blank (t ++ u) = false -> double_blank t = false.
Proof.
  induction t as [| c t IH]; [done |].
  cbn [app]. rewrite !double_blank_cons.
  intros [Hc Ht]%orb_false_elim. rewrite (IH Ht), orb_false_r.
  destruct t; [by rewrite andb_false_r | exact Hc].
Qed.

Lemma double_blank_drop_last (s : str) :
  double_blank s = false -> double_blank (drop_last s) = false.
Proof.
  intros Hs. destruct s as [| c s]; [done |].
  apply (double_blank_prefix _ [List.last (c :: s) c]).
  unfold drop_last. by rewrite <- app_removelast_last.
Qed.

(** The first substitution: a run of two or more blanks becomes a space. *)
Lemma greedy_blank_run (taken : nat) (b : bool) (s : str) :
  greedy (match_here []) 2 cls_hspace taken b s
  = if (2 <=? taken + blank_run s)%nat then Some (blank_run s) else None.
Proof.
  revert taken b. induction s as [| c s IH]; intros taken b.
  - cbn [greedy blank_run match_here]. by rewrite Nat.add_0_r.
  - cbn [greedy blank_run]. destruct (cls_hspace c).
    + rewrite IH. rewrite Nat.add_succ_r. cbn [Nat.add].
      destruct (Nat.leb_spec 2 (S (taken + blank_run s))); [done |].
      destruct (Nat.leb_spec 2 taken); [lia | done].
    + cbn [match_here]. by rewrite Nat.add_0_r.
Qed.

Lemma double_spaces_match (b : bool) (s : str) :
  match_here double_spaces b s
  = if (2 <=? blank_run s)%nat then Some (blank_run s) else None.
Proof. unfold double_spaces. cbn [match_here]. apply greedy_blank_run. Qed.

Lemma double_spaces_collapse (s : str) :
  (double_blank (sub_from double_spaces [SPACE] (blank_run s) false s)
   = false
   /\ starts_blank (sub_from double_spaces [SPACE] (blank_run s) false s)
      = false)
  /\ (forall b, double_blank (sub_from double_spaces [SPACE] 0 b s) = false).
Proof.
  induction s as [| c s [[IHq IHs] IH0]].
  - split; [split |]; try intros b; cbn [blank_run sub_from];
      rewrite double_spaces_match; done.
  - assert (forall b,
              double_blank (sub_from double_spaces [SPACE] 0 b (c :: s))
              = false) as H0.
    { intros b. cbn [sub_from]. rewrite double_spaces_match.
      cbn [blank_run]. destruct (cls_hspace c) eqn:Hc.
      - destruct (blank_run s) as [| k] eqn:Hrun.
        + cbn [Nat.leb]. rewrite double_blank_cons, IHq, IHs.
          by rewrite andb_false_r.
        + cbn [Nat.leb app]. rewrite double_blank_cons, IHq, IHs.
          by rewrite andb_false_r.
      - cbn [Nat.leb]. rewrite double_blank_cons, Hc. apply IH0. }
    split; [| exact H0]. cbn [blank_run].
    destruct (cls_hspace c) eqn:Hc.
    + cbn [sub_from]. by split.
    + split; [apply H0 |]. cbn [sub_from]. rewrite double_spaces_match.
      cbn [blank_run]. by rewrite Hc.
Qed.

(** A substitution by one character that is no blank makes no new pair of
    blanks. *)
Lemma sub_starts_blank (p : list atom) (x : char) (b : bool) (s : str) :
  cls_hspace x = false ->
  starts_blank (sub_from p [x] 0 b s) = true -> starts_blank s = true.
Proof.
  intros Hx. destruct s as [| c s]; cbn [sub_from];
    destruct (match_here p b _) as [[| n] |]; cbn [app starts_blank];
    congruence.
Qed.

Lemma sub_keeps_single (p : list atom) (x : char) :
  cls_hspace x = false ->
  forall s skip b,
    double_blank s = false -> double_blank (sub_from p [x] skip b s) = false.
Proof.
  intros Hx. induction s as [| d s IH]; intros skip b Hs.
  - destruct skip; cbn [sub_from]; [| done].
    by destruct (match_here p b []) as [[| n] |].
  - rewrite double_blank_cons in Hs.
    apply orb_false_elim in Hs as [Hd Hs].
    assert (double_blank (d :: sub_from p [x] 0 false s) = false) as Hcopy.
    { rewrite double_blank_cons, (IH 0%nat false Hs), orb_false_r.
      destruct (starts_blank (sub_from p [x] 0 false s)) eqn:Hout;
        [| by rewrite andb_false_r].
      by rewrite (sub_starts_blank p x false s Hx Hout) in Hd. }
    destruct skip as [| k]; cbn [sub_from]; [| by apply IH].
    destruct (match_here p b (d :: s)) as [[| n] |]; cbn [app].
    + by rewrite double_blank_cons, Hx, Hcopy.
    + rewrite double_blank_cons, Hx. cbn [andb orb]. by apply IH.
    + exact Hcopy.
Qed.

(** [$\n] only cuts at the end. *)
Lemma ending_newline_prefix (s : str) (b : bool) :
  exists u, s = sub_from ending_newline [] 0 b s ++ u.
Proof.
  revert b. induction s as [| c s IH]; intros b.
  - by exists [].
  - destruct s as [| d s].
    + destruct (c =? LF)%N eqn:E.
      * apply N.eqb_eq in E as ->. by exists [LF].
      * exists []. cbn [sub_from]. unfold ending_newline at 1.
        cbn [match_here]. by rewrite E.
    + destruct (IH false) as [u Hu]. exists u.
      change (sub_from ending_newline [] 0 b (c :: d :: s))
        with (c :: sub_from ending_newline [] 0 false (d :: s)).
      cbn [app]. by rewrite <- Hu.
Qed.

(** X6. Whatever the text, the cleanup leaves no two characters of the
    class [[^\S\r\n]] (white space other than carriage return and line
    feed) side by side. *)
Theorem clean_text_has_no_doubled_blank (text : str) :
  double_blank (_clean_text text) = false.
Proof.
  assert (double_blank (substitutions text) = false) as Hsub.
  { unfold substitutions, re_sub.
    apply (sub_keeps_single after_newline LF eq_refl).
    destruct (ending_newline_prefix
                (sub_from first_space [LF] 0 true
                   (sub_from ending_spaces [LF] 0 true
                      (sub_from empty_lines [LF] 0 true
                         (sub_from double_spaces (lit " ") 0 true text))))
                true) as [u Hu].
    apply (double_blank_prefix _ u). rewrite <- Hu.
    apply (sub_keeps_single first_space LF eq_refl).
    apply (sub_keeps_single ending_spaces LF eq_refl).
    apply (sub_keeps_single empty_lines LF eq_refl).
    apply double_spaces_collapse. }
  unfold _clean_text. destruct (truthy _); [| done].
  by apply double_blank_drop_last.
Qed.

End CleanupFacts.

(** ** [color.py]: the memo table, the tally and the order *)

Section PaletteFacts.

Import Color Props Further.

Variable scipy_available : bool.
Variable webcolors_available : bool.
Variable image : Type.
Variable crop_getdata : image -> Z * Z * Z * Z -> result (list pixel).
Variable color_names : list str.
Variable kdt_query : pixel -> result Z.

Local Abbreviation _rgb_to_name := (_rgb_to_name color_names kdt_query).
Local Abbreviation count_names := (count_names color_names kdt_query).
Local Abbreviation try_body :=
  (try_body image crop_getdata color_names kdt_query).
Local Abbreviation get_color_string :=
  (get_color_string scipy_available webcolors_available image crop_getdata
     color_names kdt_query).
Local Abbreviation nearest_name := (nearest_name color_names kdt_query).
Local Abbreviation coherent := (coherent color_names kdt_query).

Lemma rgb_to_name_grows (c : gmap pixel str) (rgb : pixel) :
  c ⊆ snd (_rgb_to_name c rgb).
Proof.
  unfold Color._rgb_to_name. destruct (c !! rgb) eqn:E; [done |].
  destruct (bind _ _); [| done]. cbn [snd]. by apply insert_subseteq.
Qed.

Lemma count_names_grows (by_color : list (pixel * Z))
    (acc : list (str * Z)) (c : gmap pixel str) :
  c ⊆ snd (count_names c by_color acc).
Proof.
  revert c acc. induction by_color as [| [color count] rest IH];
    intros c acc; [done |].
  cbn [Color.count_names].
  pose proof (rgb_to_name_grows c color) as Hstep.
  destruct (_rgb_to_name c color) as [[name | e] c1]; cbn [snd] in *.
  - etrans; [exact Hstep | apply IH].
  - exact Hstep.
Qed.

Lemma try_body_grows (d : detector) (box : box_dict) (i : Z) (img : image)
    (c : gmap pixel str) :
  c ⊆ snd (try_body d box i img c).
Proof.
  unfold Color.try_body.
  destruct (bind (field box "width" i) _) as [[[width height] pixels] | e];
    [| done].
  pose proof (count_names_grows (count_colors pixels) [] c) as Hnames.
  by destruct (count_names c (count_colors pixels) []) as [[names | e] c1].
Qed.

(** X7. The memo table only grows: whatever the box, the image and the
    outcome, every entry of the table before a call of [get_color_string]
    is in the table after it, with the same name. *)
Theorem color_cache_only_grows (d : detector) (box : option box_dict)
    (i : Z) (img : option image) (c : gmap pixel str) :
  c ⊆ snd (get_color_string d box i img c).
Proof.
  unfold Color.get_color_string.
  destruct (negb (_enabled d)); [done |].
  destruct (negb scipy_available); [done |].
  destruct (negb webcolors_available); [done |].
  destruct (_max_colors d <? 1); [done |].
  destruct img as [im |], box as [[| entry entries] |]; try done.
  pose proof (try_body_grows d (entry :: entries) i im c) as H.
  by destruct (try_body d (entry :: entries) i im c) as [[r | e] c1].
Qed.

(** X8. A colour once named keeps its name: after [_rgb_to_name] has
    answered for a colour, it gives the same answer for that colour in
    every later table, without asking the tree and without changing the
    table. *)
Theorem named_colour_keeps_its_name (c c1 c2 : gmap pixel str) (rgb : pixel)
    (name : str) :
  _rgb_to_name c rgb = (Ok name, c1) -> c1 ⊆ c2 ->
  _rgb_to_name c2 rgb = (Ok name, c2).
Proof.
  unfold Color._rgb_to_name. intros Hfirst Hsub.
  assert (c1 !! rgb = Some name) as Hin.
  { destruct (c !! rgb) as [n |] eqn:E.
    - by injection Hfirst as <- <-.
    - destruct (bind _ _) as [n |]; [| done].
      injection Hfirst as <- <-. apply lookup_insert_eq. }
  by rewrite (lookup_weaken _ _ _ _ Hin Hsub).
Qed.

Lemma rgb_to_name_coherent (c : gmap pixel str) (rgb : pixel) :
  coherent c ->
  fst (_rgb_to_name c rgb) = nearest_name rgb
  /\ coherent (snd (_rgb_to_name c rgb)).
Proof.
  intros Hc. unfold Color._rgb_to_name.
  destruct (c !! rgb) as [name |] eqn:E.
  - split; [by rewrite (Hc _ _ E) | done].
  - fold (nearest_name rgb).
    destruct (nearest_name rgb) as [name | e] eqn:Hq; [| done].
    split; [done |]. cbn [snd]. intros rgb' name' Hin.
    destruct (decide (rgb = rgb')) as [<- | Hne].
    + rewrite lookup_insert_eq in Hin. by injection Hin as <-.
    + rewrite lookup_insert_ne in Hin by done. by apply Hc.
Qed.

Lemma count_names_coherent (by_color : list (pixel * Z))
    (acc : list (str * Z)) (c c2 : gmap pixel str) :
  coherent c -> coherent c2 ->
  fst (count_names c by_color acc) = fst (count_names c2 by_color acc)
  /\ coherent (snd (count_names c by_color acc)).
Proof.
  revert c c2 acc. induction by_color as [| [color count] rest IH];
    intros c c2 acc Hc Hc2; [done |].
  cbn [Color.count_names].
  destruct (rgb_to_name_coherent c color Hc) as [Hr Hc'].
  destruct (rgb_to_name_coherent c2 color Hc2) as [Hr2 Hc2'].
  destruct (_rgb_to_name c color) as [r c1],
    (_rgb_to_name c2 color) as [r2 c3]. cbn [fst snd] in *.
  subst r r2. destruct (nearest_name color) as [name | e]; [| done].
  by apply IH.
Qed.

(** X9. The memo table never changes an answer. A table is coherent when
    each of its names is the one the palette gives; the empty table is,
    [get_color_string] keeps a table coherent, and with a coherent table it
    returns the string it returns with the empty one. *)
Theorem memo_table_is_transparent (d : detector) (box : option box_dict)
    (i : Z) (img : option image) (c : gmap pixel str) :
  coherent c ->
  fst (get_color_string d box i img c) = fst (get_color_string d box i img ∅)
  /\ coherent (snd (get_color_string d box i img c)).
Proof.
  intros Hc. unfold Color.get_color_string.
  destruct (negb (_enabled d)); [done |].
  destruct (negb scipy_available); [done |].
  destruct (negb webcolors_available); [done |].
  destruct (_max_colors d <? 1); [done |].
  destruct img as [im |], box as [[| entry entries] |]; try done.
  unfold Color.try_body.
  destruct (bind (field (entry :: entries) "width" i) _)
    as [[[width height] pixels] | e]; [| done].
  assert (coherent ∅) as Hempty by (intros rgb name H; by simplify_map_eq).
  destruct (count_names_coherent (count_colors pixels) [] c ∅ Hc Hempty)
    as [Hsame Hc'].
  destruct (count_names c (count_colors pixels) []) as [r c1],
    (count_names ∅ (count_colors pixels) []) as [r2 c3].
  cbn [fst snd] in *. subst r2. destruct r as [names | e]; [| done].
  cbn [except_unknown fst snd]. split; [| by destruct (bind _ _)].
  by destruct (bind _ _).
Qed.

(** *** The tally *)

Lemma get_bump {K} `{EqDecision K} (k key : K) (n : Z) (d : list (K * Z)) :
  get k (bump key n d) = get k d + (if decide (key = k) then n else 0).
Proof.
  induction d as [| [k' v] d IH]; cbn [bump get].
  - destruct (decide (key = k)); lia.
  - destruct (decide (k' = key)) as [-> | Hne]; cbn [get].
    + destruct (decide (key = k)); lia.
    + destruct (decide (k' = k)) as [-> | Hne'].
      * rewrite decide_False by done. lia.
      * exact IH.
Qed.

Lemma count_colors_keys (pixels : list pixel) (acc : list (pixel * Z)) :
  NoDup acc.*1 -> NoDup (foldl (fun d px => bump px 1 d) acc pixels).*1.
Proof.
  revert acc. induction pixels as [| px pixels IH]; intros acc Hacc; [done |].
  cbn [foldl]. apply IH. by apply NoDup_bump.
Qed.

(** X10. The first loop of [get_color_string] tallies the pixels: every
    colour is counted as often as it occurs among the pixels of the box
    (a colour that does not occur counts 0), and no colour is listed
    twice. *)
Theorem tally_counts_occurrences (pixels : list pixel) (px : pixel) :
  get px (count_colors pixels)
  = Z.of_nat (length (filter (fun q => q = px) pixels))
  /\ NoDup (count_colors pixels).*1.
Proof.
  split; [| apply count_colors_keys, NoDup_nil_2].
  unfold count_colors.
  enough (forall acc,
            get px (foldl (fun d q => bump q 1 d) acc pixels)
            = get px acc
              + Z.of_nat (length (filter (fun q => q = px) pixels)))
    as H by (rewrite H; cbn [get]; lia).
  induction pixels as [| q pixels IH]; intros acc.
  - cbn. lia.
  - cbn [foldl]. rewrite IH, get_bump.
    destruct (decide (q = px)) as [-> | Hne].
    + rewrite filter_cons_True by done. cbn [length]. lia.
    + rewrite filter_cons_False by done. lia.
Qed.

(** *** The order *)

Lemma descending_cons {K} (a : K * Z) (l : list (K * Z)) :
  descending (a :: l)
  = match l with b :: _ => snd b <=? snd a | [] => true end && descending l.
Proof. by destruct l. Qed.

Lemma insert_desc_descending {K} (x : K * Z) (l : list (K * Z)) :
  descending l = true -> descending (insert_desc x l) = true.
Proof.
  induction l as [| y l IH]; [done |].
  rewrite descending_cons. intros [Hhead Hl]%andb_prop. cbn [insert_desc].
  destruct (Z.ltb_spec (snd x) (snd y)) as [Hlt | Hge].
  - rewrite descending_cons, (IH Hl), andb_true_r.
    destruct l as [| z l]; cbn [insert_desc].
    + apply Z.leb_le. lia.
    + destruct (snd x <? snd z); [done | apply Z.leb_le; lia].
  - rewrite descending_cons, descending_cons, Hhead, Hl.
    apply andb_true_intro. split; [apply Z.leb_le; lia | done].
Qed.

Lemma insert_desc_stable {K} (k : Z) (x : K * Z) (l : list (K * Z)) :
  filter (fun e => snd e = k) (insert_desc x l)
  = filter (fun e => snd e = k) (x :: l).
Proof.
  induction l as [| y l IH]; [done |]. cbn [insert_desc].
  destruct (Z.ltb_spec (snd x) (snd y)) as [Hlt | Hge]; [| done].
  destruct (decide (snd y = k)) as [Hy | Hy].
  - rewrite (filter_cons_True _ y) by done. rewrite IH.
    rewrite (filter_cons_False _ x) by lia.
    rewrite (filter_cons_False _ x) by lia.
    by rewrite (filter_cons_True _ y) by done.
  - rewrite (filter_cons_False _ y) by done. rewrite IH.
    destruct (decide (snd x = k)) as [Hx | Hx].
    + rewrite !(filter_cons_True _ x) by done.
      by rewrite (filter_cons_False _ y) by done.
    + rewrite !(filter_cons_False _ x) by done.
      by rewrite (filter_cons_False _ y) by done.
Qed.

(** X11. The names are ordered as [sorted(..., reverse=True)] orders
    them: the sorted list holds the same entries, the counts do not
    increase along it, and entries with equal counts keep the order they
    had. *)
Theorem sorted_desc_is_a_stable_sort {K} (l : list (K * Z)) :
  sorted_desc l ≡ₚ l
  /\ descending (sorted_desc l) = true
  /\ forall k, filter (fun e => snd e = k) (sorted_desc l)
               = filter (fun e => snd e = k) l.
Proof.
  split; [apply sorted_desc_perm |]. split.
  - induction l as [| x l IH]; [done |]. cbn [sorted_desc foldr].
    by apply insert_desc_descending.
  - intros k. induction l as [| x l IH]; [done |].
    cbn [sorted_desc foldr]. rewrite insert_desc_stable.
    destruct (decide (snd x = k)).
    + rewrite !(filter_cons_True _ x) by done. by f_equal.
    + by rewrite !(filter_cons_False _ x) by done.
Qed.

End PaletteFacts.

(** ** [macro.py]: what playback, unloading and loading do to the world *)

Section PlaybackFacts.

Import Macro Props Further.

Variable _macro_file : str.
Variable samefile : str -> str -> bool.
Variable pyatspi_available : bool.
Variable py_int : str -> option Z.
Variable py_float : str -> option float.
Variable sleep_valid : float -> bool.
Variable KEY_CODE : str -> option Z.

Local Abbreviation run_line :=
  (run_line pyatspi_available py_int py_float sleep_valid KEY_CODE).
Local Abbreviation run_lines :=
  (run_lines pyatspi_available py_int py_float sleep_valid KEY_CODE).
Local Abbreviation run_macro :=
  (run_macro _macro_file pyatspi_available py_int py_float sleep_valid
     KEY_CODE).
Local Abbreviation wait_loop := (wait_loop _macro_file).
Local Abbreviation wait_for_finish := (wait_for_finish _macro_file).
Local Abbreviation macro_exists := (macro_exists _macro_file).
Local Abbreviation load_macro_file :=
  (load_macro_file _macro_file samefile).
Local Abbreviation delete_macro := (delete_macro _macro_file).
Local Abbreviation still_waiting := (still_waiting _macro_file).

Lemma tame_ret (p : bool) {A} (a : A) : tame p (ret a).
Proof. intros w. repeat split. exists []. by rewrite app_nil_r. Qed.

Lemma tame_lift (p : bool) {A} (r : result A) : tame p (lift r).
Proof. intros w. repeat split. exists []. by rewrite app_nil_r. Qed.

Lemma tame_raise (p : bool) {A} (e : exn) : tame p (@raise A e).
Proof. intros w. repeat split. exists []. by rewrite app_nil_r. Qed.

Lemma tame_emit (p : bool) (e : event) :
  allowed p e = true -> tame p (act (emit e)).
Proof.
  intros He w. repeat split. exists [e]. split; [done |].
  cbn [forallb]. by rewrite He.
Qed.

Lemma tame_seq (p : bool) {A B} (m : M A) (k : A -> M B) :
  tame p m -> (forall a, tame p (k a)) -> tame p (seq m k).
Proof.
  intros Hm Hk w. unfold seq.
  destruct (Hm w) as (Hfs & Hflag & evs & Hev & Hall).
  destruct (m w) as [[a | e] w1]; cbn [snd] in *.
  - destruct (Hk a w1) as (Hfs' & Hflag' & evs' & Hev' & Hall').
    rewrite Hfs', Hflag', Hev', Hev, Hfs, Hflag. repeat split.
    exists (evs ++ evs'). split; [by rewrite app_assoc |].
    by rewrite forallb_app, Hall, Hall'.
  - repeat split; try done. by exists evs.
Qed.

Lemma tame_keyboard_step (p : bool) (key_value : Z) (key_string : str)
    (event_type : Z) :
  tame p (_do_keyboard_step p KEY_CODE key_value key_string event_type).
Proof.
  unfold _do_keyboard_step.
  destruct p; cbn [negb]; [| apply tame_ret].
  destruct (key_value =? 0); [destruct (truthy key_string) |];
    try apply tame_ret;
    destruct (event_type =? 0); try (by apply tame_emit);
    destruct (event_type =? 1); try (by apply tame_emit);
    destruct (event_type =? 2); try (by apply tame_emit);
    apply tame_ret.
Qed.

Lemma tame_mouse_step (p : bool) (x y : Z) (mouse_event : str) :
  tame p (_do_mouse_step p x y mouse_event).
Proof.
  unfold _do_mouse_step.
  destruct p; cbn [negb]; [| apply tame_ret].
  apply tame_seq; [by apply tame_emit |]. intros _.
  destruct (negb _); [by apply tame_emit | apply tame_ret].
Qed.

Lemma tame_sleep (p : bool) (x : float) : tame p (time_sleep sleep_valid x).
Proof.
  unfold time_sleep. destruct (sleep_valid x);
    [by apply tame_emit | apply tame_raise].
Qed.

Lemma tame_run_line (line : str) : tame pyatspi_available (run_line line).
Proof.
  unfold Macro.run_line, to_int, to_float.
  apply tame_seq; [apply tame_lift |]. intros tag.
  destruct (str_eqb tag (lit "c")).
  { apply tame_seq; [apply tame_lift |]. intros what.
    destruct (str_eqb what (lit "delay")); [| apply tame_ret].
    apply tame_seq; [apply tame_lift |]. intros field.
    apply tame_seq; [apply tame_lift |]. intros seconds.
    apply tame_sleep. }
  destruct (str_eqb tag (lit "k")).
  { repeat (apply tame_seq; [apply tame_lift |]; intros ?).
    apply tame_keyboard_step. }
  destruct (str_eqb tag (lit "m")); [| apply tame_ret].
  repeat (apply tame_seq; [apply tame_lift |]; intros ?).
  apply tame_mouse_step.
Qed.

Lemma tame_run_lines (lines : list str) :
  tame pyatspi_available (run_lines lines).
Proof.
  induction lines as [| line lines IH]; [apply tame_ret |].
  cbn [Macro.run_lines]. apply tame_seq; [apply tame_run_line | done].
Qed.

Lemma run_macro_log (w : world) (content : str) :
  fs w !! _macro_file = Some (File content) ->
  run_macro w
  = match run_lines (readlines content) (set_finished false w) with
    | (Ok _, w') => (Ok tt, set_finished true w')
    | (Raise e, w') => (Raise e, w')
    end.
Proof.
  intros H. unfold Macro.run_macro. rewrite H. unfold seq, act.
  by destruct (run_lines (readlines content) (set_finished false w))
    as [[[] | e] w1].
Qed.

(** X12. Playback only reads the log: whatever the log holds and however
    playback ends, [run_macro] leaves every file as it was, and the only
    things it does are sleeps and, where [pyatspi] is present, injected
    pointer and key events; without [pyatspi] it injects nothing. *)
Theorem playback_only_reads_the_log (w : world) :
  fs (snd (run_macro w)) = fs w
  /\ exists evs,
       events (snd (run_macro w)) = events w ++ evs
       /\ forallb (allowed pyatspi_available) evs = true.
Proof.
  destruct (fs w !! _macro_file) as [[content |] |] eqn:E.
  - rewrite (run_macro_log w content E).
    destruct (tame_run_lines (readlines content) (set_finished false w))
      as (Hfs & _ & evs & Hev & Hall).
    destruct (run_lines (readlines content) (set_finished false w))
      as [[[] | e] w1]; cbn [snd fs events set_finished] in *;
      (split; [done |]); by exists evs.
  - unfold Macro.run_macro. rewrite E. split; [done |].
    exists []. by rewrite app_nil_r.
  - unfold Macro.run_macro. rewrite E. split; [done |].
    exists []. by rewrite app_nil_r.
Qed.

Lemma run_macro_flag (w : world) :
  macro_exists w = true ->
  get_macro_finished (snd (run_macro w))
  = match fst (run_macro w) with Ok _ => true | Raise _ => false end.
Proof.
  unfold Macro.macro_exists, is_regular_file.
  destruct (fs w !! _macro_file) as [[content |] |] eqn:E; try done.
  intros _. rewrite (run_macro_log w content E).
  destruct (tame_run_lines (readlines content) (set_finished false w))
    as (_ & Hflag & _).
  by destruct (run_lines (readlines content) (set_finished false w))
    as [[[] | e] w1].
Qed.

(** X13. With a log in place, the finished flag tells how playback ended:
    after [run_macro] it is up when playback reached the end of the log
    and down when a line raised. Without a log [run_macro] changes
    nothing, the flag included. *)
Theorem finished_flag_tells_the_outcome (w : world) :
  (macro_exists w = true ->
   (fst (run_macro w) = Ok tt <-> get_macro_finished (snd (run_macro w))
                                   = true))
  /\ (macro_exists w = false -> run_macro w = (Ok tt, w)).
Proof.
  split.
  - intros Hlog. rewrite (run_macro_flag w Hlog).
    destruct (fst (run_macro w)) as [[] | e]; by split.
  - unfold Macro.macro_exists, is_regular_file, Macro.run_macro.
    by destruct (fs w !! _macro_file) as [[content |] |].
Qed.

(** X14. Unloading never raises and leaves no macro: after [delete_macro]
    there is no active log, every other path of the file system is as it
    was, and nothing is injected. *)
Theorem delete_macro_unloads (w : world) :
  exists w',
    delete_macro w = (Ok tt, w')
    /\ macro_exists w' = false
    /\ (forall path, path <> _macro_file -> fs w' !! path = fs w !! path)
    /\ events w' = events w
    /\ _macro_finished w' = _macro_finished w.
Proof.
  unfold Macro.delete_macro, Macro.macro_exists, is_regular_file, os_remove.
  destruct (fs w !! _macro_file) as [[content |] |] eqn:E.
  - eexists. split; [reflexivity |]. cbn [set_fs fs events _macro_finished].
    rewrite lookup_delete_eq. repeat split.
    intros path Hne. by rewrite lookup_delete_ne.
  - exists w. rewrite E. by repeat split.
  - exists w. rewrite E. by repeat split.
Qed.

(** Another spelling of the active log, or a link to it, passes the
    comparison of the paths and is refused by [shutil.copy]: loading
    raises and changes nothing. *)
Lemma load_of_another_spelling_raises (macro_path content : str)
    (w : world) :
  fs w !! macro_path = Some (File content) ->
  fs w !! _macro_file <> Some Dir ->
  macro_path <> _macro_file -> samefile macro_path _macro_file = true ->
  load_macro_file macro_path w = (Raise OSError, w).
Proof.
  intros Hsrc Hdir Hne Hsame.
  unfold Macro.load_macro_file, _load_macro_exists, is_regular_file.
  rewrite Hsrc. unfold str_eqb. rewrite bool_decide_eq_false_2 by done.
  cbn [negb]. unfold shutil_copy. rewrite Hsrc.
  destruct (fs w !! _macro_file) as [[old |] |]; [| done |];
    by rewrite Hsame.
Qed.


(** *** Waiting *)

Lemma wait_loop_none (schedule : list (world -> world)) (w : world) :
  wait_loop schedule w = None
  <-> forall n, (n <= length schedule)%nat ->
                still_waiting (after_sleeps n schedule w) = true.
Proof.
  revert w. induction schedule as [| other schedule IH]; intros w.
  - cbn [Macro.wait_loop]. fold (still_waiting w). split.
    + intros H n Hn. assert (n = 0%nat) as -> by (cbn in Hn; lia).
      cbn [after_sleeps]. by destruct (still_waiting w).
    + intros H. specialize (H 0%nat (Nat.le_0_l _)).
      cbn [after_sleeps] in H. by rewrite H.
  - cbn [Macro.wait_loop]. fold (still_waiting w).
    destruct (still_waiting w) eqn:Hw.
    + rewrite IH. split.
      * intros H [| n] Hn; [done |]. cbn [after_sleeps].
        apply H. cbn in Hn. lia.
      * intros H n Hn. apply (H (S n)). cbn. lia.
    + split; [done |]. intros H.
      specialize (H 0%nat (Nat.le_0_l _)). cbn [after_sleeps] in H.
      congruence.
Qed.

(** X16. The wait ends only on the flag or on the loss of the log:
    [wait_for_finish] has not returned by the end of a schedule exactly
    when after every sleep of it the finished flag was down and the log in
    place. So after a playback that raised, which leaves the flag down,
    the waiter waits for as long as the log stays. *)
Theorem wait_goes_on_while_flag_down_and_log_there
    (schedule : list (world -> world)) (w : world) :
  wait_for_finish schedule w = None
  <-> forall n, (n <= length schedule)%nat ->
                get_macro_finished (after_sleeps n schedule w) = false
                /\ macro_exists (after_sleeps n schedule w) = true.
Proof.
  assert (wait_for_finish schedule w = None
          <-> wait_loop schedule w = None) as ->.
  { unfold Macro.wait_for_finish.
    by destruct (wait_loop schedule w) as [[schedule' w'] |]. }
  rewrite wait_loop_none. unfold Further.still_waiting.
  split; intros H n Hn; specialize (H n Hn).
  - apply andb_prop in H as [Hf He]. by apply negb_true_iff in Hf.
  - destruct H as [-> ->]. done.
Qed.

(** X17. After a playback that reached the end of the log, the wait does
    not poll: for every schedule [wait_for_finish] returns after the
    settle sleep alone, and the flag is down again. *)
Theorem wait_after_playback_does_not_poll
    (schedule : list (world -> world)) (w : world) :
  macro_exists w = true -> fst (run_macro w) = Ok tt ->
  wait_for_finish schedule (snd (run_macro w))
  = Some (set_finished false
            (match schedule with
             | [] => fun w => w
             | other :: _ => other
             end (emit (Sleep 0.2) (snd (run_macro w))))).
Proof.
  intros Hlog Hok. pose proof (run_macro_flag w Hlog) as Hflag.
  rewrite Hok in Hflag. unfold Macro.wait_for_finish.
  assert (wait_loop schedule (snd (run_macro w))
          = Some (schedule, snd (run_macro w))) as ->; [| done].
  destruct schedule; cbn [Macro.wait_loop]; by rewrite Hflag.
Qed.

End PlaybackFacts.

(** ** [macro.py]: what is recorded is what is played back *)

Section RoundTrip.

Import Macro Props Further.

Variable _macro_file : str.
Variable py_int : str -> option Z.
Variable py_float : str -> option float.
Variable sleep_valid : float -> bool.
Variable KEY_CODE : str -> option Z.

Local Abbreviation run_line :=
  (run_line true py_int py_float sleep_valid KEY_CODE).
Local Abbreviation run_lines :=
  (run_lines true py_int py_float sleep_valid KEY_CODE).
Local Abbreviation run_macro :=
  (run_macro _macro_file true py_int py_float sleep_valid KEY_CODE).
Local Abbreviation write_mouse_to_macro :=
  (write_mouse_to_macro _macro_file).
Local Abbreviation write_keyboard_to_macro :=
  (write_keyboard_to_macro _macro_file true).

(** *** Fields and lines *)

Lemma field_uint (d : Decimal.uint) :
  forallb field_char (lit (NilEmpty.string_of_uint d)) = true.
Proof.
  induction d as [| d IH | d IH | d IH | d IH | d IH | d IH | d IH | d IH
                  | d IH | d IH]; [done | ..];
    cbn [NilEmpty.string_of_uint];
    match goal with
    | |- forallb field_char (lit (String ?a ?r)) = true =>
        change (field_char (N_of_ascii a) && forallb field_char (lit r)
                = true)
    end; by rewrite IH.
Qed.

Lemma field_uint_zero (d : Decimal.uint) :
  forallb field_char (lit (NilZero.string_of_uint d)) = true.
Proof.
  destruct d; try reflexivity;
    match goal with
    | |- context [NilZero.string_of_uint ?x] => exact (field_uint x)
    end.
Qed.

Lemma field_str_of_Z (n : Z) : forallb field_char (str_of_Z n) = true.
Proof.
  unfold str_of_Z, NilZero.string_of_int.
  destruct (Z.to_int n) as [d | d].
  - apply field_uint_zero.
  - change (field_char 45%N
            && forallb field_char (lit (NilZero.string_of_uint d)) = true).
    by rewrite field_uint_zero.
Qed.

Lemma str_of_Z_not_empty (n : Z) : str_of_Z n <> [].
Proof.
  unfold str_of_Z, NilZero.string_of_int, NilZero.string_of_uint.
  destruct (Z.to_int n) as [d | d]; destruct d; discriminate.
Qed.

Lemma field_inner (s : str) :
  forallb field_char s = true -> forallb inner_char s = true.
Proof.
  induction s as [| c s IH]; [done |]. cbn [forallb].
  intros [Hc Hs]%andb_prop. rewrite (IH Hs), andb_true_r.
  unfold field_char in Hc. apply andb_prop in Hc as [Hws Hcomma].
  unfold inner_char, plain. rewrite Hcomma, andb_true_r.
  apply negb_true_iff in Hws.
  destruct (c =? LF)%N eqn:E1; [by apply N.eqb_eq in E1 as -> |].
  destruct (c =? CR)%N eqn:E2; [by apply N.eqb_eq in E2 as -> | done].
Qed.

Lemma inner_plain (s : str) :
  forallb inner_char s = true -> forallb plain s = true.
Proof.
  induction s as [| c s IH]; [done |]. cbn [forallb].
  intros [Hc Hs]%andb_prop. rewrite (IH Hs), andb_true_r.
  unfold inner_char in Hc. by apply andb_prop in Hc as [Hc _].
Qed.

Lemma split_field (a rest : str) :
  forallb inner_char a = true ->
  split COMMA (a ++ COMMA :: rest) = a :: split COMMA rest.
Proof.
  induction a as [| c a IH]; [done |]. cbn [forallb app].
  intros [Hc Ha]%andb_prop. unfold inner_char in Hc.
  apply andb_prop in Hc as [_ Hc]. apply negb_true_iff in Hc.
  cbn [split]. by rewrite Hc, (IH Ha).
Qed.

Lemma split_last_field (a : str) :
  forallb inner_char a = true -> split COMMA a = [a].
Proof.
  induction a as [| c a IH]; [done |]. cbn [forallb].
  intros [Hc Ha]%andb_prop. unfold inner_char in Hc.
  apply andb_prop in Hc as [_ Hc]. apply negb_true_iff in Hc.
  cbn [split]. by rewrite Hc, (IH Ha).
Qed.

Lemma field_not_space (s : str) :
  forallb field_char s = true ->
  forallb (fun c => negb (isspace c)) s = true.
Proof.
  induction s as [| c s IH]; [done |]. cbn [forallb].
  intros [Hc Hs]%andb_prop. rewrite (IH Hs), andb_true_r.
  unfold field_char in Hc. by apply andb_prop in Hc as [Hc _].
Qed.

Lemma field_ends_solid (s : str) :
  s <> [] -> forallb field_char s = true -> ends_solid s = true.
Proof.
  intros Hne Hs. apply field_not_space in Hs.
  destruct s as [| c r]; [done |].
  cbn [forallb] in Hs. apply andb_prop in Hs as [Hc Hr].
  apply negb_true_iff in Hc. by apply solid_ends.
Qed.

Lemma ends_solid_app (s t : str) :
  t <> [] -> ends_solid t = true -> ends_solid (s ++ t) = true.
Proof.
  intros Hne Ht. unfold ends_solid in *. rewrite last_app.
  by destruct (last t).
Qed.

(** [strip] takes the newline off a line that neither starts nor ends
    with white space. *)
Lemma strip_line (s : str) :
  starts_solid s = true -> ends_solid s = true -> strip (s ++ [LF]) = s.
Proof.
  intros Hstart Hend. unfold strip, rstrip.
  assert (lstrip (s ++ [LF]) = s ++ [LF]) as ->.
  { destruct s as [| c s]; [done |]. cbn [starts_solid] in Hstart.
    apply negb_true_iff in Hstart. cbn [app lstrip]. by rewrite Hstart. }
  rewrite rev_unit. change (lstrip (LF :: rev s)) with (lstrip (rev s)).
  unfold ends_solid in Hend. destruct (last s) as [c |] eqn:E; [| done].
  apply last_Some in E as [l ->]. rewrite rev_unit.
  apply negb_true_iff in Hend. cbn [lstrip]. rewrite Hend.
  by rewrite <- (rev_unit l c), rev_involutive.
Qed.

(** *** The lines as playback executes them *)

Lemma run_line_delay (f : float) (w : world) :
  py_float (lit "0.9") = Some f ->
  run_line delay_line w = time_sleep sleep_valid f w.
Proof.
  intros Hf. unfold Macro.run_line, to_float. cbv zeta.
  assert (split COMMA (strip delay_line)
          = [lit "c"; lit "delay"; lit "0.9"]) as -> by (by vm_compute).
  change (index [lit "c"; lit "delay"; lit "0.9"] 0) with (Ok (lit "c")).
  change (index [lit "c"; lit "delay"; lit "0.9"] 1) with (Ok (lit "delay")).
  change (index [lit "c"; lit "delay"; lit "0.9"] 2) with (Ok (lit "0.9")).
  unfold seq, lift. cbv beta iota.
  change (str_eqb (lit "c") (lit "c")) with true.
  change (str_eqb (lit "delay") (lit "delay")) with true. cbv beta iota.
  rewrite Hf. by destruct (time_sleep sleep_valid f w) as [[[] | e] w'].
Qed.

Lemma pointer_fields (x y : Z) (name : str) :
  name <> [] -> forallb field_char name = true ->
  split COMMA (strip (pointer_line x y name))
  = [lit "m"; str_of_Z x; str_of_Z y; name].
Proof.
  intros Hne Hname. rewrite pointer_line_fields, strip_line.
  - change (lit "m,") with (lit "m" ++ [COMMA]).
    change (lit ",") with [COMMA]. rewrite <- !app_assoc. cbn [app].
    rewrite (split_field (lit "m")) by done.
    rewrite !split_field by apply field_inner, field_str_of_Z.
    by rewrite split_last_field by by apply field_inner.
  - done.
  - rewrite !app_assoc. apply ends_solid_app; [done |].
    by apply field_ends_solid.
Qed.

Lemma run_line_pointer (x y : Z) (name : str) (w : world) :
  py_int (str_of_Z x) = Some x -> py_int (str_of_Z y) = Some y ->
  name <> [] -> forallb field_char name = true ->
  run_line (pointer_line x y name) w = _do_mouse_step true x y name w.
Proof.
  intros Hx Hy Hne Hname. unfold Macro.run_line, to_int. cbv zeta.
  rewrite pointer_fields by done.
  change (index [lit "m"; str_of_Z x; str_of_Z y; name] 0)
    with (Ok (lit "m")).
  change (index [lit "m"; str_of_Z x; str_of_Z y; name] 1)
    with (Ok (str_of_Z x)).
  change (index [lit "m"; str_of_Z x; str_of_Z y; name] 2)
    with (Ok (str_of_Z y)).
  change (index [lit "m"; str_of_Z x; str_of_Z y; name] 3) with (Ok name).
  unfold seq, lift. cbv beta iota.
  change (str_eqb (lit "m") (lit "c")) with false.
  change (str_eqb (lit "m") (lit "k")) with false.
  change (str_eqb (lit "m") (lit "m")) with true. cbv beta iota.
  rewrite Hx, Hy.
  by destruct (_do_mouse_step true x y name w) as [[[] | e] w'].
Qed.

Lemma keyboard_fields (key_value : Z) (key_string : str) (event_type : Z) :
  forallb inner_char key_string = true ->
  split COMMA (strip (keyboard_line key_value key_string event_type))
  = [lit "k"; str_of_Z key_value; key_string; str_of_Z event_type].
Proof.
  intros Hkey. unfold keyboard_line.
  replace (lit "k," ++ str_of_Z key_value ++ lit "," ++ key_string
           ++ lit "," ++ str_of_Z event_type ++ [LF])
    with ((lit "k," ++ str_of_Z key_value ++ lit "," ++ key_string
           ++ lit "," ++ str_of_Z event_type) ++ [LF])
    by (by rewrite <- !app_assoc).
  rewrite strip_line.
  - change (lit "k,") with (lit "k" ++ [COMMA]).
    change (lit ",") with [COMMA]. rewrite <- !app_assoc. cbn [app].
    rewrite (split_field (lit "k")) by done.
    rewrite split_field by apply field_inner, field_str_of_Z.
    rewrite split_field by done.
    by rewrite split_last_field by apply field_inner, field_str_of_Z.
  - done.
  - rewrite !app_assoc. apply ends_solid_app; [apply str_of_Z_not_empty |].
    apply field_ends_solid; [apply str_of_Z_not_empty | apply field_str_of_Z].
Qed.

Lemma run_line_keyboard (key_value : Z) (key_string : str) (event_type : Z)
    (w : world) :
  py_int (str_of_Z key_value) = Some key_value ->
  py_int (str_of_Z event_type) = Some event_type ->
  forallb inner_char key_string = true ->
  run_line (keyboard_line key_value key_string event_type) w
  = _do_keyboard_step true KEY_CODE key_value key_string event_type w.
Proof.
  intros Hk He Hkey. unfold Macro.run_line, to_int. cbv zeta.
  rewrite keyboard_fields by done.
  change (index [lit "k"; str_of_Z key_value; key_string;
                 str_of_Z event_type] 0) with (Ok (lit "k")).
  change (index [lit "k"; str_of_Z key_value; key_string;
                 str_of_Z event_type] 1) with (Ok (str_of_Z key_value)).
  change (index [lit "k"; str_of_Z key_value; key_string;
                 str_of_Z event_type] 2) with (Ok key_string).
  change (index [lit "k"; str_of_Z key_value; key_string;
                 str_of_Z event_type] 3) with (Ok (str_of_Z event_type)).
  unfold seq, lift. cbv beta iota.
  change (str_eqb (lit "k") (lit "c")) with false.
  change (str_eqb (lit "k") (lit "k")) with true. cbv beta iota.
  rewrite Hk, He.
  by destruct (_do_keyboard_step true KEY_CODE key_value key_string
                 event_type w) as [[[] | e] w'].
Qed.

Lemma readlines_one (a : str) :
  forallb plain a = true -> readlines (a ++ [LF]) = [a ++ [LF]].
Proof.
  intros Ha. unfold readlines.
  rewrite (universal_newlines_plain a []) by done.
  by rewrite lines_from_plain by done.
Qed.

Lemma fresh_log_is_read (data : str) (w : world) :
  fs w !! _macro_file = None ->
  append_file _macro_file data w
  = (Ok tt, set_fs (<[_macro_file := File data]> (fs w)) w)
  /\ fs (set_fs (<[_macro_file := File data]> (fs w)) w) !! _macro_file
     = Some (File data).
Proof.
  intros Hnone. unfold append_file. rewrite Hnone. split; [done |].
  cbn [set_fs fs]. apply lookup_insert_eq.
Qed.


(** X19. With [pyatspi] present, a recorded key plays back as it was
    recorded. Where [int] reads back the key code and the phase as
    written, recording a key with a symbol of ASCII characters, free of
    commas and line ends, into a fresh log and playing the log back
    injects that key once, in the recorded phase, its code looked up in
    the key table when the recorded code is 0; a key with code 0 and no
    symbol is dropped. Then the finished flag is up. *)
Theorem recorded_key_plays_back (key_value : Z) (key_string : str)
    (event_type : Z) (w : world) :
  py_int (str_of_Z key_value) = Some key_value ->
  py_int (str_of_Z event_type) = Some event_type ->
  0 <= event_type <= 2 ->
  forallb is_ascii key_string = true ->
  forallb inner_char key_string = true ->
  fs w !! _macro_file = None ->
  exists w1 w2,
    write_keyboard_to_macro key_value key_string event_type w = (Ok tt, w1)
    /\ run_macro w1 = (Ok tt, w2)
    /\ events w2
       = events w
         ++ (if (key_value =? 0) && negb (truthy key_string) then []
             else [GenerateKeyboardEvent
                     (if key_value =? 0
                      then default 0 (KEY_CODE key_string) else key_value)
                     key_string (synth_of event_type)])
    /\ get_macro_finished w2 = true.
Proof.
  intros Hk He Hrange Hascii Hkey Hnone.
  destruct (fresh_log_is_read
              (keyboard_line key_value key_string event_type) w Hnone)
    as [Hwrite Hread].
  assert (write_keyboard_to_macro key_value key_string event_type w
          = (Ok tt,
             set_fs (<[_macro_file :=
                        File (keyboard_line key_value key_string
                                event_type)]> (fs w)) w)) as Hrecord.
  { unfold Macro.write_keyboard_to_macro. cbn [negb].
    rewrite <- Hwrite.
    assert ((if event_type =? KEY_PRESS_id then 0
             else if event_type =? KEY_RELEASE_id then 1
             else if event_type =? KEY_PRESSRELEASE_id then 2
             else event_type) = event_type) as ->.
    { unfold KEY_PRESS_id, KEY_RELEASE_id, KEY_PRESSRELEASE_id.
      destruct (Z.eqb_spec event_type 0) as [-> | H0]; [done |].
      destruct (Z.eqb_spec event_type 1) as [-> | H1]; [done |].
      by destruct (Z.eqb_spec event_type 2) as [-> | H2]. }
    apply write_text_ascii. unfold keyboard_line.
    rewrite !forallb_app, !ascii_str_of_Z, Hascii. reflexivity. }
  assert (readlines (keyboard_line key_value key_string event_type)
          = [keyboard_line key_value key_string event_type]) as Hlines.
  { unfold keyboard_line.
    replace (lit "k," ++ str_of_Z key_value ++ lit "," ++ key_string
             ++ lit "," ++ str_of_Z event_type ++ [LF])
      with ((lit "k," ++ str_of_Z key_value ++ lit "," ++ key_string
             ++ lit "," ++ str_of_Z event_type) ++ [LF])
      by (by rewrite <- !app_assoc).
    apply readlines_one.
    rewrite !forallb_app, !plain_str_of_Z.
    by rewrite (inner_plain key_string) by done. }
  unfold synth_of.
  destruct (key_value =? 0) eqn:Hzero; [destruct (truthy key_string) eqn:Hs |];
    cbn [andb negb];
    (destruct (Z.eqb_spec event_type 0) as [E0 | E0];
     [| destruct (Z.eqb_spec event_type 1) as [E1 | E1];
        [| destruct (Z.eqb_spec event_type 2) as [E2 | E2]; [| lia]]]).
  all: eexists; eexists; (split; [exact Hrecord |]).
  all: rewrite (run_macro_log _macro_file true py_int py_float sleep_valid
                  KEY_CODE _ _ Hread), Hlines.
  all: cbn [Macro.run_lines]; unfold seq at 1;
    rewrite run_line_keyboard by done;
    unfold _do_keyboard_step, seq, act, ret; cbn [negb];
    rewrite Hzero, ?Hs; subst event_type; cbn [Z.eqb Pos.eqb];
    (split; [reflexivity |]); cbn [events emit set_finished set_fs];
    (split; [by rewrite ?app_nil_r | done]).
Qed.

End RoundTrip.

(** ** [gui.py]: pointer actions and the send-key session *)

Section PointerFacts.

Import Macro Gui Props Further.

Variable _macro_file : str.
Variable pyatspi_available : bool.
Variable sleep_valid : float -> bool.

Lemma pointer_branch (x y : Z) (recorded injected : str) (delay : float)
    (g : window) (w : world) :
  let out :=
    ((if negb pyatspi_available then ret (_cancel g)
      else
        (if _save_to_macro g && _macro g then
           write_mouse_to_macro _macro_file x y recorded
         else
           time_sleep sleep_valid delay;;
           act (emit (GenerateMouseEvent x y injected)));;
        ret (_cancel g)) : M window) w in
  (if _save_to_macro g && _macro g then events (snd out) = events w
   else fs (snd out) = fs w)
  /\ _macro_finished (snd out) = _macro_finished w
  /\ match fst out with
     | Ok g' => g' = _cancel g
     | Raise _ => snd out = w
     end.
Proof.
  cbv zeta. destruct pyatspi_available; cbn [negb].
  2: { unfold ret. cbn [fst snd]. by destruct (_save_to_macro g && _macro g). }
  destruct (_save_to_macro g && _macro g).
  - unfold write_mouse_to_macro, seq, append_file, ret.
    by destruct (fs w !! _macro_file) as [[content |] |].
  - unfold time_sleep, seq, act, raise, ret.
    by destruct (sleep_valid delay).
Qed.

(** X20. A pointer action either records or injects, never both: while
    the window is armed and has a manager, a click or a "Route To" injects
    no event, otherwise it leaves the file system as it is. Neither
    touches the finished flag; when it succeeds the window has left its main
    loop and is otherwise unchanged, and when it fails nothing has
    happened. *)
Theorem pointer_action_records_or_injects (x y : Z) (mouse_event : str)
    (delay : float) (g : window) (w : world) :
  let clicked :=
    _thread_do_click _macro_file pyatspi_available sleep_valid x y
      mouse_event delay g w in
  let routed :=
    _thread_route_to _macro_file pyatspi_available sleep_valid x y delay g w
  in
  ((if _save_to_macro g && _macro g then events (snd clicked) = events w
    else fs (snd clicked) = fs w)
   /\ _macro_finished (snd clicked) = _macro_finished w
   /\ match fst clicked with
      | Ok g' => g' = _cancel g
      | Raise _ => snd clicked = w
      end)
  /\ ((if _save_to_macro g && _macro g then events (snd routed) = events w
       else fs (snd routed) = fs w)
      /\ _macro_finished (snd routed) = _macro_finished w
      /\ match fst routed with
         | Ok g' => g' = _cancel g
         | Raise _ => snd routed = w
         end).
Proof.
  split.
  - exact (pointer_branch x y mouse_event mouse_event delay g w).
  - exact (pointer_branch x y (lit "None") (lit "abs") delay g w).
Qed.

Lemma append_file_stays (data : str) (w : world) :
  fs w !! _macro_file <> Some Dir ->
  exists w',
    append_file _macro_file data w = (Ok tt, w')
    /\ log_text _macro_file w' = log_text _macro_file w ++ data
    /\ events w' = events w
    /\ fs w' !! _macro_file <> Some Dir.
Proof.
  intros H. unfold append_file, Props.log_text.
  destruct (fs w !! _macro_file) as [[content |] |] eqn:E; [| done |];
    eexists; (split; [reflexivity |]); simpl;
    rewrite lookup_insert_eq; by repeat split.
Qed.

Lemma listen_until_f4 (keys : list key_event) (g : window) (w : world) :
  forallb (fun e => negb (is_f4_press e)) keys = true ->
  forallb (fun e => forallb is_ascii (event_string e)) keys = true ->
  fs w !! _macro_file <> Some Dir ->
  exists w',
    listen _macro_file (keys ++ [f4_pressed]) g w
    = (Ok (set_overlay false g), w')
    /\ log_text _macro_file w'
       = log_text _macro_file w
         ++ (if _macro g then concat (map key_line keys) else [])
    /\ events w' = events w ++ [DeregisterKeystrokeListener].
Proof.
  revert w. induction keys as [| e keys IH]; intros w Hkeys Hascii Hdir.
  - exists (emit DeregisterKeystrokeListener w).
    cbn [app Further.listen]. unfold seq.
    rewrite on_send_key_f4 by reflexivity. cbn [snd]. unfold ret.
    split; [reflexivity |]. split; [| reflexivity].
    unfold Props.log_text, emit. cbn [fs concat map].
    by destruct (_macro g); rewrite app_nil_r.
  - cbn [forallb] in Hkeys, Hascii.
    apply andb_prop in Hkeys as [He Hkeys].
    apply andb_prop in Hascii as [Hae Hascii].
    apply negb_true_iff in He.
    cbn [app Further.listen]. unfold seq.
    rewrite on_send_key_other by assumption.
    destruct (_macro g) eqn:Hm.
    + destruct (append_file_stays (key_line e) w Hdir)
        as (w1 & Happ & Hlog & Hev & Hdir1).
      rewrite Happ. cbn [snd].
      destruct (IH w1 Hkeys Hascii Hdir1) as (w' & Hrun & Hlog' & Hev').
      exists w'. split; [exact Hrun |].
      split; [| by rewrite Hev', Hev].
      rewrite Hlog', Hlog. cbn [map concat]. by rewrite <- app_assoc.
    + cbn [snd].
      destruct (IH w Hkeys Hascii Hdir) as (w' & Hrun & Hlog' & Hev').
      by exists w'.
Qed.

(** X21. A send-key session, with [pyatspi] present and keystrokes whose
    event strings are of ASCII characters: entering the mode and then
    handling keystrokes up to the first F4 press appends the keystrokes
    before it to the log as key lines, in the order they arrive, when the
    window has a manager, and drops them when it has none; the listener
    is registered once and deregistered once, nothing else is emitted,
    and the window ends with the overlay off. *)
Theorem send_key_session_records_in_order (keys : list key_event)
    (g : window) (w : world) :
  forallb (fun e => negb (is_f4_press e)) keys = true ->
  forallb (fun e => forallb is_ascii (event_string e)) keys = true ->
  fs w !! _macro_file <> Some Dir ->
  exists w',
    (let* g' := _send_key_mode true g in
     listen _macro_file (keys ++ [f4_pressed]) g') w
    = (Ok (set_overlay false g), w')
    /\ log_text _macro_file w'
       = log_text _macro_file w
         ++ (if _macro g then concat (map key_line keys) else [])
    /\ events w'
       = events w
         ++ [RegisterKeystrokeListener; DeregisterKeystrokeListener].
Proof.
  intros Hkeys Hascii Hdir.
  destruct (listen_until_f4 keys (set_overlay true g)
              (emit RegisterKeystrokeListener w) Hkeys Hascii Hdir)
    as (w' & Hrun & Hlog & Hev).
  exists w'. split; [| split].
  - unfold _send_key_mode, seq, act, ret. cbn [negb]. exact Hrun.
  - exact Hlog.
  - rewrite Hev. unfold emit. cbn [events]. by rewrite <- app_assoc.
Qed.

End PointerFacts.

(** ** [macro.py]: the dialog and the waiter *)

Section DialogFacts.

Import Macro Dialog.

Variable _macro_file : str.

(** X22. Cancel and Unload release the waiter. After the dialog's Cancel,
    or after an Unload that succeeded (with or without closing the
    dialog), [wait_for_finish] does not poll, whatever the other thread
    does: it returns after the settle sleep alone, with the flag down. *)
Theorem cancel_or_unload_releases_the_waiter (close : bool)
    (schedule : list (world -> world)) (w w1 : world) :
  _on_cancel w = (Ok tt, w1)
  \/ _on_delete_macro _macro_file close w = (Ok tt, w1) ->
  wait_for_finish _macro_file schedule w1
  = Some (set_finished false
            (match schedule with
             | [] => fun w => w
             | other :: _ => other
             end (emit (Sleep 0.2) w1))).
Proof.
  intros H. unfold wait_for_finish.
  assert (negb (get_macro_finished w1) && macro_exists _macro_file w1
          = false) as Hdone.
  { destruct H as [H | H].
    - unfold _on_cancel, Dialog._cancel, act in H.
      injection H as <-. reflexivity.
    - unfold _on_delete_macro, delete_macro, seq in H.
      destruct (macro_exists _macro_file w) eqn:Hlog.
      + unfold os_remove in H.
        destruct (fs w !! _macro_file) as [[content |] |]; try discriminate.
        assert (macro_exists _macro_file
                  (set_fs (delete _macro_file (fs w)) w) = false) as Hgone.
        { unfold macro_exists, is_regular_file. cbn [fs set_fs].
          by rewrite lookup_delete_eq. }
        destruct close.
        * unfold Dialog._cancel, act in H. injection H as <-.
          reflexivity.
        * unfold ret in H. injection H as <-.
          rewrite Hgone. apply andb_false_r.
      + destruct close.
        * unfold Dialog._cancel, act in H. injection H as <-.
          reflexivity.
        * unfold ret in H. injection H as <-.
          rewrite Hlog. apply andb_false_r. }
  assert (wait_loop _macro_file schedule w1 = Some (schedule, w1)) as ->;
    [| done].
  destruct schedule; cbn [wait_loop]; by rewrite Hdone.
Qed.

End DialogFacts.

(** ** [platform.py]: the display server *)

Section PlatformFacts.

Import Platform Settings.

Variable environ : str -> option str.
Variable unicode_lower : str -> str.

Local Abbreviation detect_display_server :=
  (detect_display_server environ unicode_lower).

Lemma lower_spelled (name s : str) :
  spells name s = true -> lower unicode_lower s = name.
Proof.
  unfold spells, Platform.lower. intros [Hascii Hname]%andb_prop.
  rewrite Hascii. by apply bool_decide_eq_true in Hname.
Qed.


End PlatformFacts.

(** ** [app.py]: the command line *)

Section CommandLineFacts.

Import Macro App Settings.

Variable _macro_file : str.
Variable samefile : str -> str -> bool.
Variable ui_available : bool.
Variable py_int : str -> option Z.

Local Abbreviation handle :=
  (handle _macro_file samefile ui_available py_int).
Local Abbreviation handle_all :=
  (handle_all _macro_file samefile ui_available py_int).
Local Abbreviation _parse_command_line :=
  (_parse_command_line _macro_file samefile ui_available py_int).

(** A property of the settings and the world that every option keeps,
    whether it returns or raises, is kept by the loop. *)
Lemma handle_all_inv (P : app -> world -> Prop) :
  (forall opt arg a w,
      P a w ->
      match handle opt arg a w with
      | (Ok a', w') => P a' w'
      | (Raise _, w') => P (_print_help a) w'
      end) ->
  forall opts a w,
    P a w -> P (fst (handle_all opts a w)) (snd (handle_all opts a w)).
Proof.
  intros Hstep.
  induction opts as [| [opt arg] opts IH]; intros a w Ha; [exact Ha |].
  cbn [App.handle_all]. specialize (Hstep opt arg a w Ha).
  destruct (handle opt arg a w) as [[a' | e] w']; [by apply IH | done].
Qed.

Lemma parse_inv (P : app -> world -> Prop) :
  (forall a w, P a w -> P (_print_help a) w) ->
  (forall opt arg a w,
      P a w ->
      match handle opt arg a w with
      | (Ok a', w') => P a' w'
      | (Raise _, w') => P (_print_help a) w'
      end) ->
  forall getopt a w,
    P (if negb ui_available
       then set_output (_send_to_clipboard a) (_print_to_stdout a) true a
       else a) w ->
    P (fst (_parse_command_line getopt a w))
      (snd (_parse_command_line getopt a w)).
Proof.
  intros Hhelp Hstep getopt a w Ha. unfold App._parse_command_line.
  destruct getopt as [opts | e].
  - by apply handle_all_inv.
  - cbn [fst snd]. by apply Hhelp.
Qed.

(** The cases of [handle]. *)
Ltac options :=
  intros; unfold App.handle;
  repeat match goal with
         | |- context [if ?c then _ else _] => destruct c
         | |- context [match ?o with Some _ => _ | None => _ end] =>
             destruct o
         end;
  unfold ret, raise, seq;
  try match goal with
      | |- context [load_macro_file ?f ?same ?p ?w] =>
          destruct (load_macro_file f same p w) as [[[] |] ?]
      end.

(** X24. Whatever the command line, the settings stay sound: if black
    and white implied grey scale and the screenshot mode was one of the
    four before, so it is after, also when an option raised and the help
    was printed. *)
Theorem command_line_keeps_settings_sound
    (getopt : result (list (str * str))) (a : app) (w : world) :
  sound_settings a = true ->
  sound_settings (fst (_parse_command_line getopt a w)) = true.
Proof.
  intros Ha.
  apply (parse_inv (fun a _ => sound_settings a = true)); try done.
  - clear. intros opt arg a w Ha. unfold sound_settings in *.
    options; cbn; try done.
    all: destruct (_black_white a), (_grayscale a); try done; cbn in *; lia.
  - by destruct (negb ui_available).
Qed.

Lemma keeps_switches_spec (a b : app) :
  keeps_switches a b = true
  <-> Forall2 (fun x y => x = true -> y = true) (switches a) (switches b).
Proof.
  unfold keeps_switches, switches. cbn [zip_with forallb fst snd].
  rewrite !andb_true_iff.
  split.
  - intros H. decompose [and] H. clear H.
    repeat (constructor;
            [match goal with
             | H : implb ?x ?y = true |- ?x = true -> ?y = true =>
                 by destruct x, y
             end |]).
    constructor.
  - intros H.
    repeat match goal with
           | H : Forall2 _ (_ :: _) (_ :: _) |- _ =>
               apply Forall2_cons_1 in H as [? H]
           end.
    repeat split;
      match goal with
      | H : ?x = true -> ?y = true |- implb ?x ?y = true =>
          destruct x; [cbn; by apply H | done]
      end.
Qed.

(** X25. No option switches a setting off: every switch that was on
    before the command line was read is on after it. *)
Theorem command_line_only_switches_on
    (getopt : result (list (str * str))) (a : app) (w : world) :
  keeps_switches a (fst (_parse_command_line getopt a w)) = true.
Proof.
  apply (parse_inv (fun b _ => keeps_switches a b = true)).
  - clear. intros b _. rewrite !keeps_switches_spec. unfold switches.
    intros H.
    repeat match goal with
           | H : Forall2 _ (_ :: _) (_ :: _) |- _ =>
               apply Forall2_cons_1 in H as [? H]
           end.
    repeat constructor; cbn; auto.
  - clear. intros opt arg b w. rewrite keeps_switches_spec.
    unfold switches. intros H.
    repeat match goal with
           | H : Forall2 _ (_ :: _) (_ :: _) |- _ =>
               apply Forall2_cons_1 in H as [? H]
           end.
    options; rewrite keeps_switches_spec; unfold switches;
      repeat constructor; cbn; auto.
  - rewrite keeps_switches_spec. unfold switches.
    destruct (negb ui_available); repeat constructor; auto.
Qed.

Lemma help_stays_shown (opts : list (str * str)) (a : app) (w : world) :
  _show_help a = true -> _show_help (fst (handle_all opts a w)) = true.
Proof.
  apply (handle_all_inv (fun a _ => _show_help a = true)).
  clear. options; done.
Qed.

Lemma asked_help_is_shown (opt arg : str) (a a' : app) (w w' : world) :
  asks_for_help py_int (opt, arg) = true ->
  handle opt arg a w = (Ok a', w') -> _show_help a' = true.
Proof.
  unfold asks_for_help. cbn [fst snd]. intros Hasks.
  assert (opt = lit "-h"
          \/ (opt = lit "-t" \/ opt = lit "-x") /\ py_int arg = None)
    as [-> | [[-> | ->] Hint]].
  { apply orb_prop in Hasks as [H | H].
    - left. by apply bool_decide_eq_true in H.
    - right. apply andb_prop in H as [H Hint]. split.
      + apply orb_prop in H as [H | H]; apply bool_decide_eq_true in H;
          auto.
      + by destruct (py_int arg). }
  all: unfold App.handle;
    repeat match goal with
           | |- context [str_eqb (lit ?x) (lit ?y)] =>
               let v := eval vm_compute in (str_eqb (lit x) (lit y)) in
               change (str_eqb (lit x) (lit y)) with v
           end; cbv iota.
  - unfold ret. by intros [= <- _].
  - rewrite Hint. discriminate.
  - rewrite Hint. discriminate.
Qed.

(** X26. The help is shown, so that [run] returns at once, whenever
    [getopt] refuses the command line, and whenever the options include
    [-h], or a [-t] or [-x] whose argument is not an integer, wherever it
    stands among them. *)
Theorem help_is_shown_on_request_and_on_error
    (getopt : result (list (str * str))) (a : app) (w : world) :
  match getopt with
  | Ok opts => existsb (asks_for_help py_int) opts
  | Raise _ => true
  end = true ->
  _show_help (fst (_parse_command_line getopt a w)) = true.
Proof.
  unfold App._parse_command_line.
  destruct getopt as [opts | e]; [| done].
  generalize (if negb ui_available
              then set_output (_send_to_clipboard a) (_print_to_stdout a)
                     true a
              else a).
  clear a. revert w.
  induction opts as [| [opt arg] opts IH]; intros w a Hasks;
    [discriminate |].
  cbn [existsb] in Hasks. cbn [App.handle_all].
  destruct (handle opt arg a w) as [[a' | e] w'] eqn:E; [| done].
  destruct (asks_for_help py_int (opt, arg)) eqn:Ea.
  - apply help_stays_shown. by eapply asked_help_is_shown.
  - by apply IH.
Qed.

End CommandLineFacts.

Section Headless.

Import Macro App.

Variable _macro_file : str.
Variable samefile : str -> str -> bool.
Variable py_int : str -> option Z.

(** X27. Without GTK the command line cannot ask for what needs it: the
    GUI is hidden, no macro is loaded (the world is as before), the
    clipboard switch is as before, and the screenshot mode is as before
    or "file". *)
Theorem without_gtk_the_command_line_stays_headless
    (getopt : result (list (str * str))) (a : app) (w : world) :
  let parsed :=
    _parse_command_line _macro_file samefile false py_int getopt a w in
  _hide_gui (fst parsed) = true
  /\ snd parsed = w
  /\ _send_to_clipboard (fst parsed) = _send_to_clipboard a
  /\ (_screenshot_mode (fst parsed) = _screenshot_mode a
      \/ _screenshot_mode (fst parsed) = 3).
Proof.
  cbv zeta.
  apply (parse_inv _macro_file samefile false py_int
           (fun b w' =>
              _hide_gui b = true /\ w' = w
              /\ _send_to_clipboard b = _send_to_clipboard a
              /\ (_screenshot_mode b = _screenshot_mode a
                  \/ _screenshot_mode b = 3))).
  - done.
  - clear. intros opt arg b w' (Hhide & -> & Hclip & Hmode).
    unfold handle.
    repeat match goal with
           | |- context [if ?c then _ else _] => destruct c
           | |- context [match ?o with Some _ => _ | None => _ end] =>
               destruct o
           end; unfold ret, raise; cbn; auto.
  - cbn. auto.
Qed.

End Headless.

(** ** Instances of the further properties *)

Section FurtherInstances.

Import Ocr Color Macro Gui Props Fixtures Further Dialog App Settings
  Samples.

Lemma substitutions_normalize_witness :
  forallb engine_word [hello; world_below] = true
  /\ trailing_newline
       (substitutions
          (fst (_process_ocr_words None false [hello; world_below])))
     = false.
Proof.
  split; [reflexivity |].
  destruct (substitutions_normalize [hello; world_below])
    as (_ & _ & H & _); [discriminate | reflexivity | exact H].
Defined.

Lemma blank_glyph_witness :
  blank_word blank = true
  /\ _process_ocr_words None true [hello; blank; world_below]
     = _process_ocr_words None true [hello; world_below].
Proof.
  split; [reflexivity |].
  apply (blank_glyph_is_passed_over None true [hello] [world_below] blank);
    [reflexivity | discriminate].
Defined.

Lemma blank_table_witness :
  forallb blank_word [blank; empty] = true
  /\ _clean_text (fst (_process_ocr_words None true [blank; empty])) = [].
Proof.
  split; [reflexivity |].
  destruct (blank_table_gives_empty_text None true [blank; empty])
    as (H & _); [reflexivity | exact H].
Defined.

Lemma one_separator_witness :
  forallb engine_word [hello; world_below] = true
  /\ count_char LF (fst (_process_ocr_words None true [hello; world_below]))
     = (breaks hello [world_below] + 1)%nat.
Proof.
  split; [reflexivity |].
  destruct (one_separator_between_glyphs None true hello [world_below])
    as (H & _); [reflexivity | exact H].
Defined.

Lemma named_colour_witness :
  _rgb_to_name palette nearest ∅ red = (Ok (lit "red"), knows_red)
  /\ _rgb_to_name palette nearest knows_red red
     = (Ok (lit "red"), knows_red).
Proof.
  assert (_rgb_to_name palette nearest ∅ red = (Ok (lit "red"), knows_red))
    as H by reflexivity.
  split; [exact H |].
  apply (named_colour_keeps_its_name palette nearest ∅ knows_red knows_red
           red (lit "red")); [exact H | reflexivity].
Defined.

Lemma memo_table_witness :
  coherent palette nearest knows_red
  /\ fst (get_color_string true true unit crop8 palette nearest three_colors
            (Some box8) 0 (Some tt) knows_red)
     = fst (get_color_string true true unit crop8 palette nearest three_colors
              (Some box8) 0 (Some tt) ∅).
Proof.
  assert (coherent palette nearest knows_red) as H.
  { intros rgb name Hin. unfold knows_red in Hin.
    apply lookup_singleton_Some in Hin as [<- <-]. reflexivity. }
  split; [exact H |].
  destruct (memo_table_is_transparent true true unit crop8 palette nearest
              three_colors (Some box8) 0 (Some tt) knows_red H) as (E & _).
  exact E.
Defined.

Lemma word_list_witness :
  w_text <$> snd (_process_ocr_words None true [hello; blank; world_below])
  = text <$> filter (fun w => blank_word w = false)
               [hello; blank; world_below].
Proof.
  destruct (word_list_follows_the_glyphs None true
              [hello; blank; world_below]) as (H & _).
  apply H. reflexivity.
Defined.

Lemma finished_flag_witness :
  macro_exists macro_file (with_log []) = true
  /\ (fst (run_macro macro_file true decimal_int delay_float any_sleep
             no_keys (with_log [])) = Ok tt
      <-> get_macro_finished
            (snd (run_macro macro_file true decimal_int delay_float
                    any_sleep no_keys (with_log [])))
          = true).
Proof.
  split; [reflexivity |].
  destruct (finished_flag_tells_the_outcome macro_file true decimal_int
              delay_float any_sleep no_keys (with_log [])) as (H & _).
  apply H. reflexivity.
Defined.


Lemma wait_after_playback_witness :
  macro_exists macro_file (with_log []) = true
  /\ wait_for_finish macro_file []
       (snd (run_macro macro_file true decimal_int delay_float any_sleep
               no_keys (with_log [])))
     = Some (set_finished false
               (emit (Sleep 0.2)
                  (snd (run_macro macro_file true decimal_int delay_float
                          any_sleep no_keys (with_log []))))).
Proof.
  split; [reflexivity |].
  apply (wait_after_playback_does_not_poll macro_file true decimal_int
           delay_float any_sleep no_keys [] (with_log []));
    reflexivity.
Defined.


Lemma recorded_key_witness :
  decimal_int (str_of_Z 65) = Some 65
  /\ decimal_int (str_of_Z 2) = Some 2
  /\ exists w1 w2,
       write_keyboard_to_macro macro_file true 65 (lit "A") 2 without_log
       = (Ok tt, w1)
       /\ run_macro macro_file true decimal_int delay_float any_sleep
            no_keys w1 = (Ok tt, w2)
       /\ events w2
          = [GenerateKeyboardEvent 65 (lit "A") KEY_PRESSRELEASE].
Proof.
  split; [reflexivity |]. split; [reflexivity |].
  destruct (recorded_key_plays_back macro_file decimal_int delay_float
              any_sleep no_keys 65 (lit "A") 2 without_log)
    as (w1 & w2 & Hrec & Hrun & Hev & _);
    [reflexivity | reflexivity | lia | reflexivity | reflexivity
    | reflexivity |].
  exists w1, w2. split; [exact Hrec |]. split; [exact Hrun |]. exact Hev.
Defined.

Lemma send_key_session_witness :
  forallb (fun e => negb (is_f4_press e)) [key_a_pressed; key_a_released]
  = true
  /\ forallb (fun e => forallb is_ascii (event_string e))
       [key_a_pressed; key_a_released]
     = true
  /\ exists w',
       (let* g' := _send_key_mode true (a_window false) in
        listen macro_file ([key_a_pressed; key_a_released] ++ [f4_pressed])
          g') without_log
       = (Ok (set_overlay false (a_window false)), w')
       /\ log_text macro_file w'
          = lit "k,0,a,0" ++ [LF] ++ lit "k,0,a,1" ++ [LF].
Proof.
  split; [reflexivity |]. split; [reflexivity |].
  destruct (send_key_session_records_in_order macro_file
              [key_a_pressed; key_a_released] (a_window false) without_log)
    as (w' & Hrun & Hlog & _); [reflexivity | reflexivity | by vm_compute |].
  exists w'. split; [exact Hrun |]. rewrite Hlog. reflexivity.
Defined.


Lemma cancel_or_unload_witness :
  _on_delete_macro macro_file false (with_log [])
  = (Ok tt, without_log)
  /\ wait_for_finish macro_file [] without_log
     = Some (set_finished false (emit (Sleep 0.2) without_log)).
Proof.
  assert (_on_delete_macro macro_file false (with_log [])
          = (Ok tt, without_log)) as H by reflexivity.
  split; [exact H |].
  apply (cancel_or_unload_releases_the_waiter macro_file false []
           (with_log []) without_log).
  right. exact H.
Defined.

Lemma command_line_sound_witness :
  sound_settings initial = true
  /\ sound_settings
       (fst (_parse_command_line macro_file one_spelling true decimal_int
               (Ok black_and_white_clipboard) initial without_log))
     = true.
Proof.
  split; [reflexivity |].
  apply (command_line_keeps_settings_sound macro_file one_spelling true
           decimal_int (Ok black_and_white_clipboard) initial without_log).
  reflexivity.
Defined.

Lemma help_is_shown_witness :
  existsb (asks_for_help decimal_int) bad_threshold = true
  /\ _show_help
       (fst (_parse_command_line macro_file one_spelling true decimal_int
               (Ok bad_threshold) initial without_log))
     = true.
Proof.
  split; [reflexivity |].
  apply (help_is_shown_on_request_and_on_error macro_file one_spelling true
           decimal_int (Ok bad_threshold) initial without_log).
  reflexivity.
Defined.

End FurtherInstances.
